(** * LASIF: the iteration registry and the command line front end

    A shallow embedding of [lasif/components/iterations.py] (class
    [IterationsComponent]) over a model of the Python 2 string and
    [posixpath] primitives it calls and of a POSIX directory tree, followed
    by the command resolver and the status report of the command line
    interface as the specification describes them. *)

From Stdlib Require Import ZArith QArith Ascii.
From stdpp Require Import gmap strings list sorting pretty.

(** * Part I: the model *)

(** ** Python 2 [str] primitives

    A Python 2 [str] is a byte string: it is modelled by [string], whose
    characters are the 256 values of [ascii]. *)

(** [s[n:]] *)
Fixpoint str_drop (n : nat) (s : string) : string :=
  match n, s with
  | O, _ => s
  | S n', String _ s' => str_drop n' s'
  | S _, EmptyString => EmptyString
  end.

(** [s[:n]] *)
Fixpoint str_take (n : nat) (s : string) : string :=
  match n, s with
  | O, _ => EmptyString
  | S n', String a s' => String a (str_take n' s')
  | S _, EmptyString => EmptyString
  end.

(** [c in s] for a one-character [c] *)
Fixpoint str_contains (c : ascii) (s : string) : bool :=
  match s with
  | EmptyString => false
  | String a s' => bool_decide (a = c) || str_contains c s'
  end.

(** [s.rfind(c)] for a one-character [c]: the highest index of [c] in [s],
    or [-1]. *)
Fixpoint str_rfind (c : ascii) (s : string) : Z :=
  match s with
  | EmptyString => (-1)%Z
  | String a s' =>
      let r := str_rfind c s' in
      if (0 <=? r)%Z then (r + 1)%Z
      else if bool_decide (a = c) then 0%Z else (-1)%Z
  end.

(** [s.startswith(p)] *)
Definition str_startswith (p s : string) : bool :=
  bool_decide (str_take (String.length p) s = p).

(** [s.endswith(p)] *)
Definition str_endswith (p s : string) : bool :=
  bool_decide (String.length p ≤ String.length s)
  && bool_decide (str_drop (String.length s - String.length p) s = p).

(** [s.split(c)] for a one-character separator [c] *)
Fixpoint str_split (c : ascii) (s : string) : list string :=
  match s with
  | EmptyString => [EmptyString]
  | String a s' =>
      if bool_decide (a = c) then EmptyString :: str_split c s'
      else match str_split c s' with
           | [] => [String a EmptyString]
           | w :: ws => String a w :: ws
           end
  end.

(** [sep.join(l)] *)
Fixpoint str_join (sep : string) (l : list string) : string :=
  match l with
  | [] => EmptyString
  | [w] => w
  | w :: ws => w +:+ sep +:+ str_join sep ws
  end.

(** [s.rstrip(c)] for a one-character [c] *)
Fixpoint str_rstrip (c : ascii) (s : string) : string :=
  match s with
  | EmptyString => EmptyString
  | String a s' =>
      match str_rstrip c s' with
      | EmptyString => if bool_decide (a = c) then EmptyString
                       else String a EmptyString
      | t => String a t
      end
  end.

(** [c * n] *)
Fixpoint str_repeat (c : ascii) (n : nat) : string :=
  match n with
  | O => EmptyString
  | S n' => String c (str_repeat c n')
  end.

(** ** [posixpath] (Python 2.7)

    [os.sep] is ["/"] and [os.extsep] is ["."]. *)

Definition sep : ascii := "/"%char.
Definition extsep : ascii := "."%char.

(** [os.path.isabs] *)
Definition isabs (s : string) : bool := str_startswith "/" s.

(** [os.path.join(a, b)]: an absolute [b] discards [a]; otherwise the two are
    glued with exactly one separator unless [a] is empty or already ends in
    one. *)
Definition join (a b : string) : string :=
  if str_startswith "/" b then b
  else if bool_decide (a = "") || str_endswith "/" a then a +:+ b
  else a +:+ "/" +:+ b.

(** [os.path.split(p)]: [(head, tail)] around the last separator, the head
    without its trailing separators unless it consists of separators only. *)
Definition split (p : string) : string * string :=
  let i := Z.to_nat (str_rfind sep p + 1)%Z in
  let head := str_take i p in
  let tail := str_drop i p in
  let head :=
    if bool_decide (head ≠ "")
       && bool_decide (head ≠ str_repeat sep (String.length head))
    then str_rstrip sep head else head in
  (head, tail).

(** [os.path.basename(p)] *)
Definition basename (p : string) : string :=
  let i := Z.to_nat (str_rfind sep p + 1)%Z in
  str_drop i p.

(** The loop of [genericpath._splitext]: is there, among the [steps]
    characters from [filenameIndex] on, one that is not [extsep]? *)
Fixpoint splitext_scan (p : string) (filenameIndex steps : nat) : bool :=
  match steps with
  | O => false
  | S k =>
      match String.get filenameIndex p with
      | Some a => if bool_decide (a = extsep)
                  then splitext_scan p (S filenameIndex) k else true
      | None => false
      end
  end.

(** [os.path.splitext(p)]: the extension starts at the last dot of the last
    path component, leading dots of that component not counted. *)
Definition splitext (p : string) : string * string :=
  let sepIndex := str_rfind sep p in
  let dotIndex := str_rfind extsep p in
  if (sepIndex <? dotIndex)%Z
     && splitext_scan p (Z.to_nat (sepIndex + 1)%Z)
                      (Z.to_nat (dotIndex - (sepIndex + 1))%Z)
  then (str_take (Z.to_nat dotIndex) p, str_drop (Z.to_nat dotIndex) p)
  else (p, "").

(** The loop of [os.path.normpath] over the components, [new_comps] kept in
    reverse. *)
Fixpoint normpath_comps (initial_slashes : nat) (new_comps : list string)
    (comps : list string) : list string :=
  match comps with
  | [] => reverse new_comps
  | comp :: comps' =>
      if bool_decide (comp = "") || bool_decide (comp = ".")
      then normpath_comps initial_slashes new_comps comps'
      else if bool_decide (comp ≠ "..")
              || (bool_decide (initial_slashes = O)
                  && bool_decide (new_comps = []))
              || bool_decide (head new_comps = Some "..")
      then normpath_comps initial_slashes (comp :: new_comps) comps'
      else normpath_comps initial_slashes (tail new_comps) comps'
  end.

(** [os.path.normpath(path)] *)
Definition normpath (path : string) : string :=
  if bool_decide (path = "") then "."
  else
    let initial_slashes : nat :=
      if str_startswith "/" path then
        if str_startswith "//" path && negb (str_startswith "///" path)
        then 2 else 1
      else 0 in
    let comps := normpath_comps initial_slashes [] (str_split sep path) in
    let path := str_join "/" comps in
    let path := str_repeat sep initial_slashes +:+ path in
    if bool_decide (path = "") then "." else path.

(** [os.path.abspath(path)], with the working directory [cwd] of the
    process. *)
Definition abspath (cwd path : string) : string :=
  normpath (if isabs path then path else join cwd path).

(** ** [fnmatch] and the directory tree

    [fnmatch.fnmatch(name, pat)] on POSIX, for patterns built from literal
    characters, [*] and [?].  Bracket expressions are not modelled: the one
    pattern of this program, [ITERATION_*.xml], has none. *)
Fixpoint fnmatch (pat : string) (name : string) {struct pat} : bool :=
  match pat with
  | EmptyString => bool_decide (name = "")
  | String c pat' =>
      if bool_decide (c = "*"%char) then
        (fix star (s : string) : bool :=
           fnmatch pat' s
           || match s with
              | EmptyString => false
              | String _ s' => star s'
              end) name
      else
        match name with
        | EmptyString => false
        | String a name' =>
            (bool_decide (c = "?"%char) || bool_decide (a = c))
            && fnmatch pat' name'
        end
  end.

(** [glob.has_magic] *)
Definition has_magic (s : string) : bool :=
  str_contains "*" s || str_contains "?" s || str_contains "[" s.

(** A node of the directory tree: a regular file with its content, or a
    directory.  Symbolic links, permissions and name length limits are not
    modelled. *)
Inductive node :=
  | File (content : string)
  | Dir.

Global Instance node_eq_dec : EqDecision node.
Proof. solve_decision. Defined.

(** The state of the operating system that the component sees: the tree, as
    a finite map from absolute paths (the list of component names from the
    root, which itself is always a directory) to nodes, and the working
    directory of the process. *)
Record os_state := OsState {
  fs : gmap (list string) node;
  cwd : string
}.

Definition is_dir (t : gmap (list string) node) (p : list string) : bool :=
  bool_decide (p = []) || bool_decide (t !! p = Some Dir).

(** Path resolution: every component is looked up in a directory that
    exists; empty components and [.] stay, [..] goes up. *)
Fixpoint walk (t : gmap (list string) node) (cur : list string)
    (comps : list string) : option (list string) :=
  match comps with
  | [] => Some cur
  | c :: comps' =>
      if negb (is_dir t cur) then None
      else if bool_decide (c = "") || bool_decide (c = ".")
      then walk t cur comps'
      else if bool_decide (c = "..") then walk t (removelast cur) comps'
      else walk t (cur ++ [c]) comps'
  end.

(** The place a path string names, when all the directories on the way
    exist; the place itself need not. *)
Definition lookup_path (st : os_state) (p : string) : option (list string) :=
  if bool_decide (p = "") then None
  else
    start ← (if isabs p then Some []
             else walk (fs st) [] (str_split sep (cwd st)));
    walk (fs st) start (str_split sep p).

(** The name of [q] inside the directory [d], when [q] is an entry of it. *)
Definition child_name (d q : list string) : option string :=
  n ← last q; if bool_decide (q = d ++ [n]) then Some n else None.

(** The names of the entries of the directory [d], in the order the map
    enumeration gives. *)
Definition children (t : gmap (list string) node) (d : list string)
    : list string :=
  omap (child_name d) (map_to_list t).*1.

(** [os.listdir(p)] for a path without NUL byte; [None] stands for
    [OSError]. *)
Definition listdir (st : os_state) (p : string) : option (list string) :=
  d ← lookup_path st p;
  if is_dir (fs st) d then Some (children (fs st) d) else None.

(** [open(p, "wt").write(data)]: creates or truncates the regular file [p];
    [None] stands for [IOError] (a directory on the way is missing, [p] names
    a directory) or for the [TypeError] on a NUL byte in [p]. *)
Definition write_file (st : os_state) (p data : string) : option os_state :=
  if str_contains "000" p then None
  else
    q ← lookup_path st p;
    if is_dir (fs st) q || negb (is_dir (fs st) (removelast q)) then None
    else Some (OsState (<[q := File data]> (fs st)) (cwd st)).

(** [open(p).read()]; [None] stands for [IOError]. *)
Definition read_file (st : os_state) (p : string) : option string :=
  if str_contains "000" p then None
  else
    q ← lookup_path st p;
    match fs st !! q with
    | Some (File data) => Some data
    | _ => None
    end.



(** [glob.glob1(dirname, pattern)] *)
Definition glob1 (st : os_state) (dirname pattern : string) : list string :=
  let dirname := if bool_decide (dirname = "") then "." else dirname in
  match listdir st dirname with
  | None => []
  | Some names =>
      let names :=
        if bool_decide (String.get 0 pattern ≠ Some "."%char)
        then filter (λ x, String.get 0 x ≠ Some "."%char) names
        else names in
      filter (λ x, fnmatch pattern x = true) names
  end.

(** [glob.iglob(pathname)] for a [pathname] whose last component has a
    wildcard and whose directory part has none, as in the one call of this
    program.  The other branches of the library function (the recursive
    expansion of wildcards in the directory part, a last component without
    wildcard) are outside the model and yield nothing here; the theorems
    that depend on the scan assume a folder without wildcard characters. *)
Definition iglob (st : os_state) (pathname : string) : list string :=
  let '(dirname, basename) := split pathname in
  if negb (has_magic basename) then []
  else if bool_decide (dirname = "") then glob1 st "." basename
  else if bool_decide (dirname ≠ pathname) && has_magic dirname then []
  else (λ name, join dirname name) <$> glob1 st dirname basename.

(** A name that a directory entry can have: not empty, not [.] or [..],
    without separator and without NUL byte. *)
Definition ordinary_name (n : string) : bool :=
  negb (bool_decide (n = "")) && negb (bool_decide (n = "."))
  && negb (bool_decide (n = "..")) && negb (str_contains sep n)
  && negb (str_contains "000" n).

(** Every entry of the tree has a path made of such names. *)
Definition well_named (t : gmap (list string) node) : Prop :=
  map_Forall (λ p _, Forall (λ n, ordinary_name n = true) p) t.

(** The components of an absolute path string after the root. *)
Definition folder_path (folder : string) : list string :=
  tail (str_split sep folder).

(** The folders the theorems on the directory scan are about: an absolute,
    normalised path other than the root, without wildcard characters and
    NUL bytes. *)
Definition wf_folder (folder : string) : bool :=
  match str_split sep folder with
  | EmptyString :: c :: cs => forallb ordinary_name (c :: cs)
  | _ => false
  end
  && negb (has_magic folder) && negb (str_contains "000" folder).

(** The same, unfolded: [d] is the list of the components. *)
Record folder_shape (folder : string) (d : list string) : Prop := {
  shape_split : str_split sep folder = "" :: d;
  shape_ne : d ≠ [];
  shape_ordinary : Forall (λ n, ordinary_name n = true) d;
  shape_magic : has_magic folder = false;
  shape_nul : str_contains "000" folder = false
}.

(** The directory [d] exists, with all the directories above it. *)
Definition dir_at (t : gmap (list string) node) (d : list string) : bool :=
  bool_decide (walk t [] d = Some d) && is_dir t d.

(** ** Exceptions and the monad of the component's methods *)

(** The exceptions a method of the component can end with.  [ValueError] and
    [LASIFNotFoundError] are raised by the component itself; [IOError]
    stands for what a failed call of [open] raises, [XMLError] for what the
    parser of [lasif.iteration_xml] raises; the component catches
    neither. *)
Inductive exn :=
  | ValueError (msg : string)
  | LASIFNotFoundError (msg : string)
  | IOError
  | XMLError.

(** The two kinds of failure of the registry's contract. *)
Inductive error_kind := AlreadyExists | NotFound.

Definition kind_of (e : exn) : option error_kind :=
  match e with
  | ValueError _ => Some AlreadyExists
  | LASIFNotFoundError _ => Some NotFound
  | IOError | XMLError => None
  end.

(** A method reads and updates the operating system state and returns or
    raises. *)
Definition M (A : Type) : Type := os_state → (exn + A) * os_state.

Global Instance M_ret : MRet M := λ A x st, (inr x, st).
Global Instance M_bind : MBind M := λ A B f m st,
  match m st with
  | (inr x, st') => f x st'
  | (inl e, st') => (inl e, st')
  end.

Definition raise {A} (e : exn) : M A := λ st, (inl e, st).

Definition get_state : M os_state := λ st, (inr st, st).

(** The outcome [r] of a method is a failure of kind [k]. *)
Definition fails_with {A} (r : (exn + A) * os_state) (k : error_kind) : Prop :=
  ∃ e, r.1 = inl e ∧ kind_of e = Some k.

(** Lifts an operating system call that either fails, leaving the state as
    it is, or returns the new state. *)
Definition os_update (f : os_state → option os_state) : M unit := λ st,
  match f st with
  | Some st' => (inr (), st')
  | None => (inl IOError, st)
  end.

Definition os_read {A} (f : os_state → option A) : M A := λ st,
  match f st with
  | Some x => (inr x, st)
  | None => (inl IOError, st)
  end.

(** ** [lasif.iteration_xml]

    The module is a collaborator of the component: its XML schema is not
    part of this development.  An iteration object carries its name, its
    comments and the rest of its settings (solver, period band, events and
    stations). *)
Record Iteration (settings : Type) := mkIteration {
  iteration_name : string;
  comments : list string;
  other_settings : settings
}.
Global Arguments mkIteration {_} _ _ _.
Global Arguments iteration_name {_} _.
Global Arguments comments {_} _.
Global Arguments other_settings {_} _.

(** What the component uses of [lasif.iteration_xml]:
    [create_iteration_xml_string] (taken to return a string for every
    argument, as the interface of the serializer is described), the parser
    behind the constructor [Iteration(path)] ([None] when it raises) and the
    serializer behind [Iteration.write]. *)
Class iteration_xml := {
  period : Type;
  settings : Type;
  create_iteration_xml_string :
    string → string → gmap string (list string) → period → period → string;
  parse_iteration : string → option (Iteration settings);
  serialize_iteration : Iteration settings → string
}.

(** The parser reads back what the serializer wrote. *)
Class iteration_xml_round_trip (X : iteration_xml) : Prop :=
  parse_serialize : ∀ it, parse_iteration (serialize_iteration it) = Some it.

(** ** The iterations component *)

Module IterationsComponent.
Section component.
Context `{X : iteration_xml}.

(** The object: [self._folder]. *)
Record t := new { _folder : string }.

(** [Iteration(path)] *)
Definition Iteration_init (path : string) : M (Iteration settings) :=
  data ← os_read (λ st, read_file st path);
  match parse_iteration data with
  | Some it => mret it
  | None => raise XMLError
  end.

(** [iteration.write(filename)] *)
Definition Iteration_write (it : Iteration settings) (filename : string)
    : M unit :=
  os_update (λ st, write_file st filename (serialize_iteration it)).

Definition get_long_iteration_name (iteration_name : string) : string :=
  "ITERATION_" +:+ iteration_name.

Definition _get_filename_for_iteration (self : t) (iteration_name : string)
    : string :=
  join (_folder self)
       (get_long_iteration_name iteration_name +:+ String extsep "" +:+ "xml").

(** The key expression of the dictionary comprehension in
    [get_iteration_dict]:
    [os.path.splitext(os.path.basename(_i))[0][10:]]. *)
Definition short_from_filename (_i : string) : string :=
  str_drop 10 (splitext (basename _i)).1.

Definition get_iteration_dict (self : t) (st : os_state)
    : gmap string string :=
  let files :=
    abspath (cwd st) <$>
      iglob st (join (_folder self)
                     ("ITERATION_*" +:+ String extsep "" +:+ "xml")) in
  foldl (λ it_dict _i, <[short_from_filename _i := _i]> it_dict) ∅ files.

Definition count (self : t) (st : os_state) : nat :=
  size (get_iteration_dict self st).

Definition has_iteration (self : t) (iteration_name : string)
    (st : os_state) : bool :=
  bool_decide (is_Some (get_iteration_dict self st !! iteration_name)).

Definition create_new_iteration (self : t) (iteration_name solver_name : string)
    (events_dict : gmap string (list string)) (min_period max_period : period)
    : M unit :=
  st ← get_state;
  if bool_decide (is_Some (get_iteration_dict self st !! iteration_name))
  then raise (ValueError
                ("Iteration " +:+ iteration_name +:+ " already exists."))
  else
    let xml_string :=
      create_iteration_xml_string iteration_name solver_name events_dict
                                  min_period max_period in
    os_update (λ st, write_file st
                       (_get_filename_for_iteration self iteration_name)
                       xml_string).

Definition save_iteration (self : t) (iteration : Iteration settings)
    : M unit :=
  let filename :=
    _get_filename_for_iteration self (iteration_name iteration) in
  Iteration_write iteration filename.

Definition create_successive_iteration (self : t)
    (existing_iteration_name new_iteration_name : string) : M unit :=
  st ← get_state;
  let it_dict := get_iteration_dict self st in
  match it_dict !! existing_iteration_name with
  | None =>
      raise (LASIFNotFoundError
               ("Iteration " +:+ existing_iteration_name
                +:+ " does not exists."))
  | Some existing_file =>
      if bool_decide (is_Some (it_dict !! new_iteration_name))
      then raise (ValueError
                    ("Iteration " +:+ new_iteration_name
                     +:+ " already exists."))
      else
        existing_iteration ← Iteration_init existing_file;
        let existing_iteration :=
          mkIteration (iteration_name existing_iteration) []
                      (other_settings existing_iteration) in
        let existing_iteration :=
          mkIteration new_iteration_name (comments existing_iteration)
                      (other_settings existing_iteration) in
        save_iteration self existing_iteration
  end.

Definition get (self : t) (iteration_name : string)
    : M (Iteration settings) :=
  st ← get_state;
  let it_dict := get_iteration_dict self st in
  match it_dict !! iteration_name with
  | None =>
      raise (LASIFNotFoundError
               ("Iteration '" +:+ iteration_name +:+ "' not found."))
  | Some file => Iteration_init file
  end.

(** [sorted(self.get_iteration_dict().keys())]: Python 2 compares [str]
    values byte by byte. *)
Definition list (self : t) (st : os_state) : Datatypes.list string :=
  merge_sort String.le (map_to_list (get_iteration_dict self st)).*1.
End component.
End IterationsComponent.

(** ** The command resolver

    The entry point of [lasif/scripts/lasif_cli.py] (the resolution of the
    subcommand name, the suggestions for an unknown name, the dispatch to
    the handler) is not among the source files; only its tests are.  The
    definitions of this part follow section 4.3 of the specification. *)

(** [str.lower()] on a byte string: only [A]..[Z] change. *)
Definition ascii_lower (a : ascii) : ascii :=
  let n := nat_of_ascii a in
  if bool_decide (65 ≤ n) && bool_decide (n ≤ 90) then ascii_of_nat (n + 32)
  else a.

Fixpoint str_lower (s : string) : string :=
  match s with
  | EmptyString => EmptyString
  | String a s' => String (ascii_lower a) (str_lower s')
  end.

Module Resolver.
Section resolver.
Context {handler : Type}.

(** The similarity metric, the minimum similarity and the width of the tie
    band: the specification leaves all three open. *)
Variable similarity : string → string → Z.
Variable threshold tie_band : Z.

(** Modelled from the spec: the resolution outcome of section 3, missing
    with [lasif_cli.py]. *)
Inductive outcome :=
  | Resolved (h : handler)
  | Unknown (candidates : list string).

(** Modelled from the spec: step 1 of the resolver of [lasif_cli.py], the
    entries whose canonical name equals the token once both are put in
    lower case. *)
Definition exact_matches (table : gmap string handler) (token : string)
    : list (string * handler) :=
  filter (λ e, str_lower e.1 = str_lower token) (map_to_list table).

(** Modelled from the spec: step 2 of the resolver of [lasif_cli.py], the
    names that clear the threshold and lie within the tie band below the
    best score among them, in ascending order. *)
Definition suggestions (table : gmap string handler) (token : string)
    : list string :=
  let scored :=
    filter (λ n, (threshold ≤ similarity token n)%Z)
           (map_to_list table).*1 in
  let best := foldr (λ n b, Z.max (similarity token n) b) threshold scored in
  merge_sort String.le
    (filter (λ n, (best - tie_band ≤ similarity token n)%Z) scored).

(** Modelled from the spec: the resolver of [lasif_cli.py]; the command is
    resolved when exactly one canonical name matches, and unknown, with the
    suggestions, otherwise. *)
Definition resolve (table : gmap string handler) (token : string)
    : outcome :=
  match exact_matches table token with
  | [(_, h)] => Resolved h
  | _ => Unknown (suggestions table token)
  end.

(** Modelled from the spec: the dispatch of the entry point of
    [lasif_cli.py], a resolved command goes to its handler, once; the value
    is the sequence of handlers invoked. *)
Definition dispatch (o : outcome) : list handler :=
  match o with
  | Resolved h => [h]
  | Unknown _ => []
  end.

(** Modelled from the spec: what the entry point of [lasif_cli.py] writes
    to the standard error stream for an unknown command [name], with the
    wording that [test_unknown_command] and [test_fuzzy_command_matching]
    expect. *)
Definition render_unknown (name : string) (candidates : list string)
    : string :=
  let nl := String "010"%char "" in
  let tab := String "009"%char "" in
  "lasif: '" +:+ name +:+ "' is not a LASIF command. See 'lasif --help'."
  +:+ nl
  +:+ match candidates with
      | [] => ""
      | [c] => nl +:+ "Did you mean this?" +:+ nl +:+ tab +:+ c +:+ nl
      | _ => nl +:+ "Did you mean one of these?" +:+ nl
             +:+ foldr (λ c r, "    " +:+ c +:+ nl +:+ r) "" candidates
      end.
End resolver.
Global Arguments outcome : clear implicits.
End Resolver.

(** ** The status report of an iteration

    The handler of [lasif iteration_status] and the queries it prints are
    not among the source files; only its test is.  The definitions of this
    part follow section 4.4 of the specification. *)

(** Modelled from the spec: the tuple of counts that the report is given
    for one event by the queries missing from the sources.  The fraction of
    stations with picked windows, a floating point number in the program,
    is an exact rational here. *)
Record event_status := mkEventStatus {
  stations_with_processed_data : nat;
  stations_with_synthetics : nat;
  total_stations : nat;
  fraction_with_picked_windows : Q
}.

Module StatusAggregator.
Definition nat_to_string (n : nat) : string := pretty n.

Definition two_digits (n : nat) : string :=
  (if bool_decide (n < 10) then "0" else "") +:+ nat_to_string n.

(** [x * 100] in hundredths, rounded to the nearest, ties to even, for
    [x] not negative. *)
Definition percent_hundredths (x : Q) : nat :=
  let n := (Qnum x * 100 * 100)%Z in
  let d := Zpos (Qden x) in
  let q := (n / d)%Z in
  let r := (n mod d)%Z in
  Z.to_nat (if bool_decide (d < 2 * r)%Z then q + 1
            else if bool_decide (2 * r = d)%Z && Z.odd q then q + 1
            else q)%Z.

(** Modelled from the spec: the percentage of the missing handler of
    [lasif iteration_status], [x * 100] with two decimal places (the
    format [%.2f]). *)
Definition format_percent (x : Q) : string :=
  if bool_decide (Qnum x < 0)%Z
  then "-" +:+ nat_to_string (percent_hundredths (- x) / 100) +:+ "."
       +:+ two_digits (percent_hundredths (- x) mod 100)
  else nat_to_string (percent_hundredths x / 100) +:+ "."
       +:+ two_digits (percent_hundredths x mod 100).

(** Modelled from the spec: the header line of the missing handler of
    [lasif iteration_status]; [test_iteration_status_command] expects
    [events] also for one event. *)
Definition header (name : string) (n_events : nat) : string :=
  "Iteration " +:+ name +:+ " is defined for " +:+ nat_to_string n_events
  +:+ " events:".

(** Modelled from the spec: a line of the missing handler of
    [lasif iteration_status] on the [k = total - have] stations that lack
    data, left out when [k] is [0]. *)
Definition lacks (what : string) (total have : nat) : list string :=
  let k := total - have in
  if bool_decide (0 < k)
  then ["Lacks " +:+ what +:+ " data for " +:+ nat_to_string k +:+ " stations"]
  else [].

(** Modelled from the spec: the lines of one event in the report of the
    missing handler of [lasif iteration_status]. *)
Definition event_block (event : string) (s : event_status) : list string :=
  [event;
   format_percent (fraction_with_picked_windows s)
   +:+ " % of the events stations have picked windows"]
  ++ lacks "processed" (total_stations s) (stations_with_processed_data s)
  ++ lacks "synthetic" (total_stations s) (stations_with_synthetics s).

(** Modelled from the spec: the report of the missing handler of
    [lasif iteration_status], the header and then the block of every event
    in the order of the iteration. *)
Definition report (name : string) (events : list string)
    (status : string → event_status) : list string :=
  header name (length events)
  :: concat ((λ e, event_block e (status e)) <$> events).
End StatusAggregator.

(** ** A sample project, for the examples

    The XML schema is replaced by a stand-in that writes the fields of an
    iteration as the binary digits of their [Countable] code. *)
Module Sample.
Fixpoint bits_of_pos (p : positive) : string :=
  match p with
  | xH => ""
  | xO p' => String "0" (bits_of_pos p')
  | xI p' => String "1" (bits_of_pos p')
  end.

Fixpoint pos_of_bits (s : string) : positive :=
  match s with
  | EmptyString => xH
  | String a s' =>
      if bool_decide (a = "1"%char) then xI (pos_of_bits s')
      else xO (pos_of_bits s')
  end.

Definition fields (it : Iteration string) : string * list string * string :=
  (iteration_name it, comments it, other_settings it).

Definition of_fields (f : string * list string * string) : Iteration string :=
  mkIteration f.1.1 f.1.2 f.2.

Definition xml : iteration_xml := {|
  period := nat;
  settings := string;
  create_iteration_xml_string := λ name solver _ _ _,
    bits_of_pos (encode (name, @nil string, solver));
  parse_iteration := λ data, of_fields <$> decode (pos_of_bits data);
  serialize_iteration := λ it, bits_of_pos (encode (fields it))
|}.
#[local] Existing Instance xml.

Definition iterations : IterationsComponent.t :=
  IterationsComponent.new "/project/ITERATIONS".

Definition iteration_1 : Iteration string :=
  mkIteration "1" ["Some"; "random comments"] "ses3d_4_1".

(** The project directory with one iteration and a subdirectory
    [ITERATION_drafts] in the iterations folder. *)
Definition disk : os_state :=
  OsState
    (list_to_map
       [(["project"], Dir);
        (["project"; "ITERATIONS"], Dir);
        (["project"; "ITERATIONS"; "ITERATION_1.xml"],
         File (serialize_iteration iteration_1));
        (["project"; "ITERATIONS"; "ITERATION_drafts"], Dir)])
    "/".
End Sample.

(** A sample command table, with a stand-in for the similarity metric: the
    number of leading characters that two names share. *)
Module SampleCli.
Definition table : gmap string nat :=
  list_to_map
    [("info", 0); ("list_events", 1); ("plot_event", 2);
     ("plot_events", 3); ("plot_windows", 4)].

Fixpoint common_prefix (a b : string) : Z :=
  match a, b with
  | String x a', String y b' =>
      if bool_decide (x = y) then (1 + common_prefix a' b')%Z else 0%Z
  | _, _ => 0%Z
  end.

(** A table with the names of [test_Q_model_plotting] and
    [test_Q_model_calculating], which are not in lower case. *)
Definition commands : gmap string nat :=
  list_to_map
    [("info", 0); ("list_events", 1); ("plot_event", 2);
     ("plot_events", 3); ("plot_windows", 4); ("plot_Q_model", 5);
     ("calculate_constant_Q_model", 6)].
End SampleCli.

(** * Part II: lemmas and theorems *)

(** A short name for the module of the component. *)
Module IC := IterationsComponent.

(** ** The path functions on examples *)

Example basename_ex :
  basename "/p/ITERATIONS/ITERATION_1.xml" = "ITERATION_1.xml".
Proof. reflexivity. Qed.
Example splitext_ex : splitext "ITERATION_1.xml" = ("ITERATION_1", ".xml").
Proof. reflexivity. Qed.
Example splitext_dots : splitext "/a/...x" = ("/a/...x", "").
Proof. reflexivity. Qed.
Example split_ex : split "/p/q//ITERATION_*.xml" = ("/p/q", "ITERATION_*.xml").
Proof. reflexivity. Qed.
Example normpath_ex : normpath "/a//b/./c/../d" = "/a/b/d".
Proof. reflexivity. Qed.
Example normpath_ex2 : normpath "a/../../b" = "../b".
Proof. reflexivity. Qed.
Example split_str_ex : str_split sep "/a//b" = [""; "a"; ""; "b"].
Proof. reflexivity. Qed.

(** ** Lemmas on the string primitives *)

Lemma str_app_nil_l (s : string) : "" +:+ s = s.
Proof. reflexivity. Qed.

Lemma str_app_cons (a : ascii) (s t : string) :
  String a s +:+ t = String a (s +:+ t).
Proof. reflexivity. Qed.

Lemma str_app_nil_r (s : string) : s +:+ "" = s.
Proof. induction s as [|a s IH]; [done|]. by rewrite str_app_cons, IH. Qed.

Lemma str_app_assoc (s t u : string) : (s +:+ t) +:+ u = s +:+ t +:+ u.
Proof. induction s as [|a s IH]; [done|]. by rewrite !str_app_cons, IH. Qed.

Lemma str_length_app (s t : string) :
  String.length (s +:+ t) = String.length s + String.length t.
Proof.
  induction s as [|a s IH]; [done|]. rewrite str_app_cons. simpl.
  by rewrite IH.
Qed.

Lemma str_drop_app (s t : string) : str_drop (String.length s) (s +:+ t) = t.
Proof. induction s as [|a s IH]; [done|]. by rewrite str_app_cons. Qed.

Lemma str_take_app (s t : string) : str_take (String.length s) (s +:+ t) = s.
Proof.
  induction s as [|a s IH]; [by destruct t|]. rewrite str_app_cons. simpl.
  by rewrite IH.
Qed.

Lemma str_contains_app (c : ascii) (s t : string) :
  str_contains c (s +:+ t) = str_contains c s || str_contains c t.
Proof.
  induction s as [|a s IH]; [done|]. rewrite str_app_cons. simpl.
  by rewrite IH, orb_assoc.
Qed.

Lemma str_rfind_ge (c : ascii) (s : string) : (-1 ≤ str_rfind c s)%Z.
Proof.
  induction s as [|a s IH]; simpl; [lia|].
  destruct (Z.leb_spec 0 (str_rfind c s)); [lia|]. case_bool_decide; lia.
Qed.

Lemma str_rfind_absent (c : ascii) (s : string) :
  str_contains c s = false → str_rfind c s = (-1)%Z.
Proof.
  induction s as [|a s IH]; simpl; [done|].
  intros [Ha Hs]%orb_false_elim. rewrite IH by done. simpl.
  by rewrite Ha.
Qed.

Lemma str_rfind_app (c : ascii) (s t : string) :
  str_contains c t = false →
  str_rfind c (s +:+ String c t) = Z.of_nat (String.length s).
Proof.
  intros Ht. induction s as [|a s IH].
  - rewrite str_app_nil_l. simpl. rewrite (str_rfind_absent _ _ Ht). simpl.
    by rewrite bool_decide_eq_true_2.
  - rewrite str_app_cons. simpl str_rfind. rewrite IH.
    destruct (Z.leb_spec 0 (Z.of_nat (String.length s)));
      simpl String.length; lia.
Qed.

Lemma str_split_not_nil (c : ascii) (s : string) : str_split c s ≠ [].
Proof.
  destruct s as [|a s]; simpl; [done|]. case_bool_decide; [done|].
  by destruct (str_split c s).
Qed.

Lemma str_split_absent (c : ascii) (w : string) :
  str_contains c w = false → str_split c w = [w].
Proof.
  induction w as [|a w IH]; simpl; [done|].
  intros [Ha Hs]%orb_false_elim. rewrite Ha, IH by done. done.
Qed.

Lemma str_split_app (c : ascii) (w s : string) :
  str_contains c w = false →
  str_split c (w +:+ String c s) = w :: str_split c s.
Proof.
  induction w as [|a w IH]; simpl.
  - intros _. rewrite ?str_app_nil_l. simpl. by rewrite bool_decide_eq_true_2.
  - intros [Ha Hs]%orb_false_elim. rewrite ?str_app_cons. simpl.
    by rewrite Ha, IH.
Qed.

Lemma str_split_snoc (c : ascii) (s n : string) :
  str_contains c n = false →
  str_split c (s +:+ String c n) = str_split c s ++ [n].
Proof.
  intros Hn. induction s as [|a s IH].
  - rewrite str_app_nil_l. simpl. rewrite bool_decide_eq_true_2 by done.
    by rewrite (str_split_absent c n).
  - rewrite str_app_cons. simpl. rewrite IH. case_bool_decide; [done|].
    pose proof (str_split_not_nil c s). by destruct (str_split c s).
Qed.

Lemma str_split_absent_elems (c : ascii) (s : string) :
  Forall (λ w, str_contains c w = false) (str_split c s).
Proof.
  induction s as [|a s IH]; simpl; [by repeat constructor|].
  case_bool_decide as Ha; [by constructor|].
  destruct (str_split c s) as [|w ws].
  { repeat constructor. simpl. by rewrite bool_decide_eq_false_2. }
  inversion_clear IH. constructor; [|done]. simpl.
  by rewrite bool_decide_eq_false_2.
Qed.

Lemma str_join_split (c : ascii) (s : string) :
  str_join (String c "") (str_split c s) = s.
Proof.
  induction s as [|a s IH]; simpl; [done|].
  pose proof (str_split_not_nil c s) as Hne.
  case_bool_decide as Ha.
  - subst a. destruct (str_split c s) as [|w ws] eqn:E; [done|].
    change (str_join (String c "") ("" :: w :: ws))
      with ("" +:+ String c "" +:+ str_join (String c "") (w :: ws)).
    by rewrite IH.
  - destruct (str_split c s) as [|w ws] eqn:E; [done|].
    destruct ws as [|w' ws].
    + simpl in *. by rewrite IH.
    + change (str_join (String c "") (String a w :: w' :: ws))
        with (String a w +:+ String c "" +:+ str_join (String c "") (w' :: ws)).
      rewrite str_app_cons. f_equal. exact IH.
Qed.

Lemma str_join_cons (sp w : string) (l : list string) :
  l ≠ [] → str_join sp (w :: l) = w +:+ sp +:+ str_join sp l.
Proof. by destruct l. Qed.

Lemma str_join_snoc (sp n : string) (l : list string) :
  l ≠ [] → str_join sp (l ++ [n]) = str_join sp l +:+ sp +:+ n.
Proof.
  induction l as [|w l IH]; [done|]. intros _.
  destruct l as [|w' l]; [done|].
  rewrite <-app_comm_cons, str_join_cons by done.
  rewrite IH by done. rewrite (str_join_cons _ w) by done.
  by rewrite !str_app_assoc.
Qed.

Lemma str_take_drop (n : nat) (s : string) : str_take n s +:+ str_drop n s = s.
Proof.
  revert s. induction n as [|n IH]; intros [|a s]; simpl; try done.
  by rewrite str_app_cons, IH.
Qed.

Lemma str_snoc_inv (s : string) :
  s ≠ "" → ∃ s' a, s = s' +:+ String a "".
Proof.
  induction s as [|a s IH]; [done|]. intros _.
  destruct s as [|b s].
  - by exists "", a.
  - destruct IH as (s' & a' & ->); [done|]. by exists (String a s'), a'.
Qed.

Lemma str_endswith_snoc (c a : ascii) (s : string) :
  str_endswith (String c "") (s +:+ String a "") = bool_decide (a = c).
Proof.
  unfold str_endswith. rewrite str_length_app. simpl String.length.
  replace (String.length s + 1 - 1) with (String.length s) by lia.
  rewrite str_drop_app, bool_decide_eq_true_2 by lia. simpl.
  apply bool_decide_ext. naive_solver.
Qed.

Lemma str_rstrip_snoc_ne (c a : ascii) (s : string) :
  a ≠ c → str_rstrip c (s +:+ String a "") = s +:+ String a "".
Proof.
  intros Ha. induction s as [|b s IH].
  - rewrite str_app_nil_l. simpl. by rewrite bool_decide_eq_false_2.
  - rewrite str_app_cons. simpl. rewrite IH.
    by destruct s.
Qed.

Lemma str_rstrip_snoc_eq (c : ascii) (s : string) :
  str_rstrip c (s +:+ String c "") = str_rstrip c s.
Proof.
  induction s as [|b s IH].
  - rewrite str_app_nil_l. simpl. by rewrite bool_decide_eq_true_2.
  - rewrite str_app_cons. simpl. by rewrite IH.
Qed.

Lemma str_rstrip_repeat (c : ascii) (n : nat) :
  str_rstrip c (str_repeat c n) = "".
Proof.
  induction n as [|n IH]; simpl; [done|]. by rewrite IH, bool_decide_eq_true_2.
Qed.

Lemma str_split_head_empty (c : ascii) (s w : string) (ws : list string) :
  str_split c s = "" :: w :: ws →
  ∃ s', s = String c s' ∧ str_split c s' = w :: ws.
Proof.
  destruct s as [|a s]; simpl; [done|]. case_bool_decide as Ha.
  - subst a. intros [= E]. eauto.
  - by destruct (str_split c s).
Qed.

Lemma str_split_head_nonempty (c : ascii) (s w : string) (ws : list string) :
  str_split c s = w :: ws → w ≠ "" → ∃ a s', s = String a s' ∧ a ≠ c.
Proof.
  destruct s as [|a s]; simpl; [naive_solver|]. case_bool_decide as Ha.
  - naive_solver.
  - eauto.
Qed.

(** ** What a well-formed folder gives *)

Lemma ordinary_name_spec (n : string) :
  ordinary_name n = true ↔
  n ≠ "" ∧ n ≠ "." ∧ n ≠ ".." ∧ str_contains sep n = false
  ∧ str_contains "000" n = false.
Proof.
  unfold ordinary_name. rewrite !andb_true_iff, !negb_true_iff.
  rewrite !bool_decide_eq_false. tauto.
Qed.

Lemma wf_folder_shape (folder : string) :
  wf_folder folder = true → folder_shape folder (folder_path folder).
Proof.
  unfold wf_folder, folder_path. rewrite !andb_true_iff, !negb_true_iff.
  intros [[Hs Hm] Hn].
  destruct (str_split sep folder) as [|w l] eqn:E; [done|].
  destruct w; [|done]. destruct l as [|c cs]; [done|]. split; try done.
  apply Forall_forall. intros n Hn'. apply list_elem_of_In in Hn'.
  rewrite forallb_forall in Hs. by apply Hs.
Qed.

Section folder.
Context (folder : string) (d : list string) (Hshape : folder_shape folder d).

Lemma folder_eq_cons : ∃ a rest, folder = String sep (String a rest) ∧ a ≠ sep.
Proof.
  destruct Hshape as [Hs Hne Ho _ _]. destruct d as [|c cs]; [done|].
  apply str_split_head_empty in Hs as (s' & -> & Hs').
  inversion_clear Ho as [|?? Hc _]. apply ordinary_name_spec in Hc as (Hc & _).
  destruct (str_split_head_nonempty _ _ _ _ Hs' Hc) as (a & s'' & -> & Ha).
  eauto.
Qed.

Lemma folder_snoc : ∃ s a, folder = s +:+ String a "" ∧ a ≠ sep.
Proof.
  destruct folder_eq_cons as (a0 & rest & E & _).
  destruct (str_snoc_inv folder) as (s & a & Hs); [by rewrite E|].
  exists s, a. split; [done|]. intros ->.
  destruct Hshape as [Hsp Hne Ho _ _]. rewrite Hs in Hsp.
  rewrite (str_split_snoc sep s "") in Hsp by done.
  assert ("" ∈ d) as Hin.
  { pose proof (str_split_not_nil sep s).
    destruct (str_split sep s) as [|w ws]; [done|]. simpl in Hsp.
    injection Hsp as _ <-. set_solver. }
  rewrite Forall_forall in Ho. by apply Ho in Hin.
Qed.

Lemma folder_not_empty : folder ≠ "".
Proof. destruct folder_eq_cons as (? & ? & -> & _). done. Qed.

Lemma folder_isabs (s : string) : str_startswith "/" (folder +:+ s) = true.
Proof. destruct folder_eq_cons as (? & ? & -> & _). done. Qed.

Lemma join_folder (n : string) :
  str_startswith "/" n = false → join folder n = folder +:+ "/" +:+ n.
Proof.
  intros Hn. unfold join. rewrite Hn.
  rewrite (bool_decide_eq_false_2 _ folder_not_empty).
  destruct folder_snoc as (s & a & E & Ha). rewrite E at 1.
  by rewrite str_endswith_snoc, bool_decide_eq_false_2.
Qed.

Lemma split_folder (n : string) :
  str_contains sep n = false → split (folder +:+ "/" +:+ n) = (folder, n).
Proof.
  intros Hn. unfold split.
  change (folder +:+ "/" +:+ n) with (folder +:+ String sep n).
  rewrite str_rfind_app by done.
  replace (Z.to_nat (Z.of_nat (String.length folder) + 1))
    with (String.length (folder +:+ "/"))
    by (rewrite str_length_app; simpl; lia).
  change (folder +:+ String sep n) with (folder +:+ "/" +:+ n).
  rewrite <-str_app_assoc, str_take_app, str_drop_app.
  destruct folder_snoc as (s & a & E & Ha).
  assert (str_rstrip sep (folder +:+ "/") = folder) as Hr.
  { change (folder +:+ "/") with (folder +:+ String sep "").
    rewrite str_rstrip_snoc_eq. rewrite E. by apply str_rstrip_snoc_ne. }
  rewrite Hr. rewrite bool_decide_eq_true_2.
  2:{ destruct folder_eq_cons as (? & ? & -> & _). done. }
  rewrite bool_decide_eq_true_2; [done|].
  intros Hrep. rewrite Hrep, str_rstrip_repeat in Hr.
  by apply folder_not_empty.
Qed.

Lemma split_folder_snoc (n : string) :
  str_contains sep n = false →
  str_split sep (folder +:+ "/" +:+ n) = "" :: d ++ [n].
Proof.
  intros Hn. change (folder +:+ "/" +:+ n) with (folder +:+ String sep n).
  rewrite str_split_snoc by done. by rewrite (shape_split _ _ Hshape).
Qed.
End folder.

Lemma normpath_comps_ordinary (i : nat) (acc l : list string) :
  Forall (λ n, ordinary_name n = true) l →
  normpath_comps i acc l = reverse acc ++ l.
Proof.
  intros Hl. revert acc. induction Hl as [|n l Hn _ IH]; intros acc; simpl.
  - by rewrite app_nil_r.
  - apply ordinary_name_spec in Hn as (H1 & H2 & H3 & _).
    rewrite (bool_decide_eq_false_2 _ H1), (bool_decide_eq_false_2 _ H2).
    rewrite (bool_decide_eq_true_2 _ H3). simpl.
    rewrite IH, reverse_cons. by rewrite <-app_assoc.
Qed.

Lemma abspath_folder (folder : string) (d : list string) (cwd n : string) :
  folder_shape folder d → ordinary_name n = true →
  abspath cwd (folder +:+ "/" +:+ n) = folder +:+ "/" +:+ n.
Proof.
  intros Hshape Hn. unfold abspath, isabs.
  rewrite (folder_isabs _ _ Hshape). unfold normpath.
  pose proof (split_folder_snoc _ _ Hshape n) as Hsplit.
  apply ordinary_name_spec in Hn as Hn'. destruct Hn' as (_ & _ & _ & Hsep & _).
  specialize (Hsplit Hsep).
  pose proof (str_join_split sep (folder +:+ "/" +:+ n)) as Hjoin.
  rewrite Hsplit in *.
  destruct (folder_eq_cons _ _ Hshape) as (a & rest & E & Ha).
  assert (Forall (λ n, ordinary_name n = true) (d ++ [n])) as Hall.
  { apply Forall_app. split; [apply Hshape|by constructor]. }
  rewrite bool_decide_eq_false_2 by (by rewrite E).
  simpl normpath_comps. rewrite normpath_comps_ordinary by done.
  rewrite reverse_nil, app_nil_l.
  assert (str_startswith "//" (folder +:+ "/" +:+ n) = false) as ->.
  { rewrite E. unfold str_startswith. simpl. apply bool_decide_eq_false_2.
    intros [= ->]. done. }
  rewrite (folder_isabs _ _ Hshape). simpl andb. cbv iota.
  rewrite str_join_cons in Hjoin.
  2:{ destruct d; [by destruct Hshape|done]. }
  rewrite str_app_nil_l in Hjoin.
  change (str_repeat sep 1 +:+ ?x) with (String sep "" +:+ x).
  change (String sep "") with "/" in *. rewrite Hjoin.
  rewrite bool_decide_eq_false_2; [done|]. by rewrite E.
Qed.

Lemma basename_slash (s n : string) :
  str_contains sep n = false → basename (s +:+ "/" +:+ n) = n.
Proof.
  intros Hn. unfold basename.
  change (s +:+ "/" +:+ n) with (s +:+ String sep n).
  rewrite str_rfind_app by done.
  replace (Z.to_nat (Z.of_nat (String.length s) + 1))
    with (String.length (s +:+ "/"))
    by (rewrite str_length_app; simpl; lia).
  change (s +:+ String sep n) with (s +:+ "/" +:+ n).
  by rewrite <-str_app_assoc, str_drop_app.
Qed.

Lemma basename_absent (n : string) :
  str_contains sep n = false → basename n = n.
Proof. intros Hn. unfold basename. by rewrite str_rfind_absent. Qed.

(** The name of the file of an iteration, without its directory. *)
Lemma short_of_long (m : string) :
  str_contains sep m = false →
  str_drop 10 (splitext ("ITERATION_" +:+ m +:+ ".xml")).1 = m.
Proof.
  intros Hm. unfold splitext.
  rewrite (str_rfind_absent sep).
  2:{ rewrite !str_contains_app, Hm. done. }
  rewrite <-str_app_assoc.
  set (L := "ITERATION_" +:+ m).
  assert (String.length L = S (9 + String.length m)) as HL
    by (unfold L; by rewrite str_length_app).
  change (L +:+ ".xml") with (L +:+ String extsep "xml").
  rewrite str_rfind_app by done.
  rewrite (proj2 (Z.ltb_lt _ _)) by lia.
  replace (Z.to_nat (Z.of_nat (String.length L) - (-1 + 1)))
    with (S (9 + String.length m)) by lia.
  assert (splitext_scan (L +:+ String extsep "xml") (Z.to_nat (-1 + 1))
            (S (9 + String.length m)) = true) as -> by done.
  cbn [andb fst]. rewrite Nat2Z.id, str_take_app.
  exact (str_drop_app "ITERATION_" m).
Qed.

Lemma long_name_sep (m : string) :
  str_contains sep
    (IC.get_long_iteration_name m +:+ String extsep "" +:+ "xml")
  = str_contains sep m.
Proof.
  unfold IC.get_long_iteration_name. rewrite !str_contains_app. simpl.
  by rewrite orb_false_r.
Qed.

Lemma long_name_eq (m : string) :
  IC.get_long_iteration_name m +:+ String extsep "" +:+ "xml"
  = "ITERATION_" +:+ m +:+ ".xml".
Proof. unfold IC.get_long_iteration_name. by rewrite str_app_assoc. Qed.

Lemma long_name_ordinary (m : string) :
  str_contains sep m = false → str_contains "000" m = false →
  ordinary_name ("ITERATION_" +:+ m +:+ ".xml") = true.
Proof.
  intros H1 H2. apply ordinary_name_spec. rewrite !str_contains_app, H1, H2.
  done.
Qed.

Lemma short_from_filename_spec (s m : string) :
  str_contains sep m = false →
  IC.short_from_filename (s +:+ "/" +:+ "ITERATION_" +:+ m +:+ ".xml")
  = m.
Proof.
  intros Hm. unfold IC.short_from_filename. rewrite basename_slash.
  - by apply short_of_long.
  - rewrite !str_contains_app, Hm. done.
Qed.

(** [fnmatch] on the pattern of the component *)

Lemma fnmatch_star (p n : string) :
  fnmatch (String "*" p) n = true ↔ ∃ m n', n = m +:+ n' ∧ fnmatch p n' = true.
Proof.
  simpl. induction n as [|a n IH].
  - rewrite orb_false_r. split.
    + intros H. by exists "", "".
    + intros (m & n' & E & H). destruct m; [|done]. by destruct n'.
  - rewrite orb_true_iff, IH. split.
    + intros [H|(m & n' & -> & H)].
      * by exists "", (String a n).
      * by exists (String a m), n'.
    + intros (m & n' & E & H). destruct m as [|b m].
      * left. by rewrite str_app_nil_l in E; subst.
      * right. rewrite str_app_cons in E. injection E as -> ->. eauto.
Qed.

Lemma fnmatch_char (c : ascii) (p n : string) :
  c ≠ "*"%char → c ≠ "?"%char →
  fnmatch (String c p) n = true ↔ ∃ n', n = String c n' ∧ fnmatch p n' = true.
Proof.
  intros H1 H2. simpl.
  rewrite (bool_decide_eq_false_2 _ H1).
  destruct n as [|a n].
  - split; [done|]. by intros (? & ? & _).
  - rewrite (bool_decide_eq_false_2 _ H2). simpl.
    rewrite andb_true_iff, bool_decide_eq_true. split.
    + intros [-> ?]. eauto.
    + by intros (n' & [= -> ->] & ?).
Qed.

Lemma fnmatch_pattern (n : string) :
  fnmatch "ITERATION_*.xml" n = true ↔ ∃ m, n = "ITERATION_" +:+ m +:+ ".xml".
Proof.
  split.
  - intros H.
    repeat (apply fnmatch_char in H as (? & -> & H); [|done..]).
    apply fnmatch_star in H as (m & n' & -> & H).
    repeat (apply fnmatch_char in H as (? & -> & H); [|done..]).
    simpl in H. apply bool_decide_eq_true in H as ->. by exists m.
  - intros [m ->].
    repeat (apply fnmatch_char; [done..|eexists; split; [reflexivity|]]).
    apply fnmatch_star. exists m, ".xml". done.
Qed.

(** ** The directory tree *)

Lemma child_name_spec (d q : list string) (n : string) :
  child_name d q = Some n ↔ q = d ++ [n].
Proof.
  unfold child_name. split.
  - destruct (last q) as [n'|]; simpl; [|done].
    case_bool_decide; naive_solver.
  - intros ->. rewrite last_snoc. simpl. by rewrite bool_decide_eq_true_2.
Qed.

Lemma elem_of_children (t : gmap (list string) node) (d : list string)
    (n : string) :
  n ∈ children t d ↔ is_Some (t !! (d ++ [n])).
Proof.
  unfold children. rewrite list_elem_of_omap. split.
  - intros (q & Hq & Hn). apply child_name_spec in Hn as ->.
    apply list_elem_of_fmap in Hq as ([q x] & -> & Hq).
    apply elem_of_map_to_list in Hq. by exists x.
  - intros [x Hx]. exists (d ++ [n]). split; [|by apply child_name_spec].
    apply list_elem_of_fmap. exists (d ++ [n], x). split; [done|].
    by apply elem_of_map_to_list.
Qed.

Lemma walk_app (t : gmap (list string) node) (cur l1 l2 : list string) :
  walk t cur (l1 ++ l2) = walk t cur l1 ≫= λ p, walk t p l2.
Proof.
  revert cur. induction l1 as [|c l1 IH]; intros cur; simpl; [done|].
  repeat case_match; auto.
Qed.

Lemma walk_ordinary (t : gmap (list string) node) (cur l p : list string) :
  Forall (λ n, ordinary_name n = true) l →
  walk t cur l = Some p → p = cur ++ l.
Proof.
  intros Hl. revert cur. induction Hl as [|n l Hn _ IH]; intros cur; simpl.
  - intros [= <-]. by rewrite app_nil_r.
  - apply ordinary_name_spec in Hn as (E1 & E2 & E3 & _).
    rewrite (bool_decide_eq_false_2 _ E1), (bool_decide_eq_false_2 _ E2),
      (bool_decide_eq_false_2 _ E3). simpl.
    destruct (is_dir t cur); simpl; [|done].
    intros ->%IH. by rewrite <-app_assoc.
Qed.

Lemma walk_ext (t t' : gmap (list string) node) (cur l : list string) :
  (∀ q, is_dir t q = is_dir t' q) → walk t cur l = walk t' cur l.
Proof.
  intros Hq. revert cur. induction l as [|c l IH]; intros cur; simpl; [done|].
  rewrite Hq. repeat case_match; auto.
Qed.

Lemma is_dir_insert_file (t : gmap (list string) node) (q p : list string)
    (data : string) :
  is_dir t q = false → is_dir (<[q := File data]> t) p = is_dir t p.
Proof.
  unfold is_dir. intros [Hq1 Hq2]%orb_false_elim. f_equal.
  apply bool_decide_eq_false in Hq2.
  destruct (decide (p = q)) as [->|Hne].
  - rewrite lookup_insert_eq. rewrite (bool_decide_eq_false_2 _ Hq2).
    by apply bool_decide_eq_false_2.
  - by rewrite lookup_insert_ne.
Qed.

Lemma dir_at_insert_file (t : gmap (list string) node) (q d : list string)
    (data : string) :
  is_dir t q = false → dir_at (<[q := File data]> t) d = dir_at t d.
Proof.
  intros Hq. unfold dir_at. rewrite is_dir_insert_file by done.
  rewrite (walk_ext (<[q := File data]> t) t); [done|].
  intros p. by apply is_dir_insert_file.
Qed.

Section folder_tree.
Context (folder : string) (d : list string) (Hshape : folder_shape folder d).

Lemma lookup_path_folder (st : os_state) :
  lookup_path st folder = walk (fs st) [] d.
Proof.
  unfold lookup_path.
  rewrite (bool_decide_eq_false_2 _ (folder_not_empty _ _ Hshape)).
  pose proof (folder_isabs _ _ Hshape "") as Habs.
  rewrite str_app_nil_r in Habs. unfold isabs. rewrite Habs. simpl.
  by rewrite (shape_split _ _ Hshape).
Qed.

Lemma lookup_path_entry (st : os_state) (n : string) :
  ordinary_name n = true →
  lookup_path st (folder +:+ "/" +:+ n) =
    if dir_at (fs st) d then Some (d ++ [n]) else None.
Proof.
  intros Hn. pose proof Hn as Hn'.
  apply ordinary_name_spec in Hn' as (E1 & E2 & E3 & Hsep & _).
  unfold lookup_path. unfold isabs. rewrite (folder_isabs _ _ Hshape).
  rewrite bool_decide_eq_false_2.
  2:{ destruct (folder_eq_cons _ _ Hshape) as (? & ? & -> & _). done. }
  rewrite (split_folder_snoc _ _ Hshape) by done. simpl.
  rewrite walk_app. unfold dir_at.
  destruct (walk (fs st) [] d) as [p|] eqn:Hw; simpl.
  - apply walk_ordinary in Hw as Hp; [|apply Hshape]. simpl in Hp. subst p.
    rewrite (bool_decide_eq_true_2 (Some d = Some d)) by done.
    rewrite (bool_decide_eq_false_2 _ E1), (bool_decide_eq_false_2 _ E2),
      (bool_decide_eq_false_2 _ E3). simpl.
    by destruct (is_dir (fs st) d).
  - done.
Qed.

Lemma listdir_folder (st : os_state) :
  listdir st folder =
    if dir_at (fs st) d then Some (children (fs st) d) else None.
Proof.
  unfold listdir. rewrite lookup_path_folder. unfold dir_at.
  destruct (walk (fs st) [] d) as [p|] eqn:Hw; simpl.
  - apply walk_ordinary in Hw as Hp; [|apply Hshape]. simpl in Hp. subst p.
    by rewrite bool_decide_eq_true_2.
  - done.
Qed.

Lemma str_contains_entry (c : ascii) (n : string) :
  str_contains c (folder +:+ "/" +:+ n)
  = str_contains c folder || bool_decide (sep = c) || str_contains c n.
Proof. rewrite !str_contains_app. simpl. by rewrite orb_false_r, orb_assoc. Qed.

Lemma write_file_entry (st : os_state) (n data : string) :
  ordinary_name n = true →
  write_file st (folder +:+ "/" +:+ n) data =
    if dir_at (fs st) d && negb (is_dir (fs st) (d ++ [n]))
    then Some (OsState (<[d ++ [n] := File data]> (fs st)) (cwd st))
    else None.
Proof.
  intros Hn. pose proof Hn as Hn'.
  apply ordinary_name_spec in Hn' as (_ & _ & _ & _ & Hnul).
  unfold write_file. rewrite str_contains_entry, Hnul, (shape_nul _ _ Hshape).
  simpl. rewrite lookup_path_entry by done.
  destruct (dir_at (fs st) d) eqn:Hd; simpl; [|done].
  rewrite removelast_last.
  apply andb_true_iff in Hd as [_ ->]. simpl. rewrite orb_false_r.
  by destruct (is_dir (fs st) (d ++ [n])).
Qed.

Lemma read_file_entry (st : os_state) (n : string) :
  ordinary_name n = true →
  read_file st (folder +:+ "/" +:+ n) =
    if dir_at (fs st) d
    then match fs st !! (d ++ [n]) with
         | Some (File data) => Some data
         | _ => None
         end
    else None.
Proof.
  intros Hn. pose proof Hn as Hn'.
  apply ordinary_name_spec in Hn' as (_ & _ & _ & _ & Hnul).
  unfold read_file. rewrite str_contains_entry, Hnul, (shape_nul _ _ Hshape).
  simpl. rewrite lookup_path_entry by done.
  by destruct (dir_at (fs st) d).
Qed.
End folder_tree.

Lemma well_named_entry (t : gmap (list string) node) (d : list string)
    (n : string) :
  well_named t → is_Some (t !! (d ++ [n])) → ordinary_name n = true.
Proof.
  intros Hwf [x Hx]. apply Hwf in Hx. rewrite Forall_app in Hx.
  destruct Hx as [_ Hx]. by inversion Hx.
Qed.

Lemma well_named_insert (t : gmap (list string) node) (d : list string)
    (n : string) (x : node) :
  well_named t → Forall (λ n, ordinary_name n = true) d →
  ordinary_name n = true → well_named (<[d ++ [n] := x]> t).
Proof.
  intros Hwf Hd Hn. apply map_Forall_insert_2; [|done].
  apply Forall_app. split; [done|by constructor].
Qed.

(** ** The dictionary of the iterations *)

Lemma dict_of_files_sound (key : string → string) (l : list string)
    (acc : gmap string string) (k v : string) :
  foldl (λ it_dict _i, <[key _i := _i]> it_dict) acc l !! k = Some v →
  (v ∈ l ∧ key v = k) ∨ acc !! k = Some v.
Proof.
  revert acc. induction l as [|i l IH]; intros acc; simpl; [auto|].
  intros [[Hv Hk]|Hacc]%IH.
  - left. split; [by right|done].
  - destruct (decide (key i = k)) as [E|E].
    + rewrite E, lookup_insert_eq in Hacc. injection Hacc as ->.
      left. split; [by left|done].
    + rewrite lookup_insert_ne in Hacc by done. by right.
Qed.

Lemma dict_of_files_complete (key : string → string) (l : list string)
    (acc : gmap string string) (k : string) :
  (is_Some (acc !! k) ∨ ∃ v, v ∈ l ∧ key v = k) →
  is_Some (foldl (λ it_dict _i, <[key _i := _i]> it_dict) acc l !! k).
Proof.
  revert acc. induction l as [|i l IH]; intros acc; simpl.
  - intros [H|(v & Hv & _)]; [done|]. by apply elem_of_nil in Hv.
  - intros [H|(v & Hv & Hk)]; apply IH.
    + left. destruct (decide (key i = k)) as [E|E].
      * by rewrite E, lookup_insert_eq.
      * by rewrite lookup_insert_ne.
    + apply elem_of_cons in Hv as [->|Hv].
      * left. by rewrite Hk, lookup_insert_eq.
      * right. eauto.
Qed.

Section dict.
Context (self : IC.t) (d : list string).
Context (Hshape : folder_shape (IC._folder self) d).
Context (st : os_state) (Hwf : well_named (fs st)).

(** The files that [get_iteration_dict] goes through. *)
Lemma elem_of_files (v : string) :
  v ∈ abspath (cwd st) <$>
        iglob st (join (IC._folder self)
                       ("ITERATION_*" +:+ String extsep "" +:+ "xml"))
  ↔ dir_at (fs st) d = true
    ∧ ∃ m, v = IC._folder self +:+ "/" +:+ "ITERATION_" +:+ m +:+ ".xml"
           ∧ is_Some (fs st !! (d ++ ["ITERATION_" +:+ m +:+ ".xml"])).
Proof.
  change ("ITERATION_*" +:+ String extsep "" +:+ "xml") with "ITERATION_*.xml".
  rewrite (join_folder _ _ Hshape) by done.
  unfold iglob. rewrite (split_folder _ _ Hshape) by done.
  rewrite (bool_decide_eq_false_2 _ (folder_not_empty _ _ Hshape)).
  rewrite (shape_magic _ _ Hshape), andb_false_r.
  change (has_magic "ITERATION_*.xml") with true. cbn [negb].
  unfold glob1.
  rewrite (bool_decide_eq_false_2 _ (folder_not_empty _ _ Hshape)).
  rewrite (listdir_folder _ _ Hshape).
  destruct (dir_at (fs st) d) eqn:Hd.
  2:{ split; [by intros ?%elem_of_nil|by intros [? _]]. }
  rewrite bool_decide_eq_true_2 by done.
  rewrite <-list_fmap_compose, list_elem_of_fmap.
  split.
  - intros (n & -> & Hn). split; [done|].
    apply list_elem_of_filter in Hn as [Hmatch Hn].
    apply list_elem_of_filter in Hn as [_ Hn].
    apply elem_of_children in Hn.
    pose proof (well_named_entry _ _ _ Hwf Hn) as Hord.
    apply fnmatch_pattern in Hmatch as [m ->]. exists m. split; [|done].
    simpl. rewrite (join_folder _ _ Hshape) by done.
    by rewrite (abspath_folder _ _ _ _ Hshape Hord).
  - intros (_ & m & -> & Hm).
    pose proof (well_named_entry _ _ _ Hwf Hm) as Hord.
    exists ("ITERATION_" +:+ m +:+ ".xml"). split.
    + simpl. rewrite (join_folder _ _ Hshape) by done.
      by rewrite (abspath_folder _ _ _ _ Hshape Hord).
    + apply list_elem_of_filter. split; [apply fnmatch_pattern; eauto|].
      apply list_elem_of_filter. split; [done|].
      by apply elem_of_children.
Qed.

Lemma dict_lookup (k : string) :
  IC.get_iteration_dict self st !! k =
    if dir_at (fs st) d
       && bool_decide
            (is_Some (fs st !! (d ++ ["ITERATION_" +:+ k +:+ ".xml"])))
    then Some (IC._folder self +:+ "/" +:+ "ITERATION_" +:+ k +:+ ".xml")
    else None.
Proof.
  unfold IC.get_iteration_dict.
  set (files := abspath (cwd st) <$> iglob st _).
  set (it_dict := foldl _ _ files).
  assert (∀ v, it_dict !! k = Some v →
            dir_at (fs st) d = true
            ∧ is_Some (fs st !! (d ++ ["ITERATION_" +:+ k +:+ ".xml"]))
            ∧ v = IC._folder self +:+ "/" +:+ "ITERATION_" +:+ k +:+ ".xml")
    as Hsound.
  { intros v [[Hv Hk]|Hv]%dict_of_files_sound; [|done].
    apply elem_of_files in Hv as (Hd & m & -> & Hm).
    pose proof (well_named_entry _ _ _ Hwf Hm) as Hord.
    apply ordinary_name_spec in Hord as (_ & _ & _ & Hsep & _).
    rewrite !str_contains_app in Hsep.
    apply orb_false_elim in Hsep as [_ [Hsep _]%orb_false_elim].
    rewrite short_from_filename_spec in Hk by done. by subst m. }
  destruct (it_dict !! k) as [v|] eqn:Hk.
  - destruct (Hsound v eq_refl) as (-> & Hm & ->).
    by rewrite bool_decide_eq_true_2.
  - destruct (dir_at (fs st) d) eqn:Hd; [|done]. simpl.
    case_bool_decide as Hm; [|done]. exfalso.
    pose proof (well_named_entry _ _ _ Hwf Hm) as Hord.
    apply ordinary_name_spec in Hord as (_ & _ & _ & Hsep & _).
    rewrite !str_contains_app in Hsep.
    apply orb_false_elim in Hsep as [_ [Hsep _]%orb_false_elim].
    assert (is_Some (it_dict !! k)) as [? Hs]; [|congruence].
    apply dict_of_files_complete. right.
    exists (IC._folder self +:+ "/" +:+ "ITERATION_" +:+ k +:+ ".xml").
    split.
    + apply elem_of_files. eauto.
    + by apply short_from_filename_spec.
Qed.
End dict.

(** ** The methods of the component *)

Lemma str_app_inj_r (s s' t : string) : s +:+ t = s' +:+ t → s = s'.
Proof.
  intros E. assert (String.length s = String.length s') as Hl.
  { apply (f_equal String.length) in E. rewrite !str_length_app in E. lia. }
  rewrite <-(str_take_app s t), E, Hl. apply str_take_app.
Qed.

Lemma long_name_inj (k k' : string) :
  "ITERATION_" +:+ k +:+ ".xml" = "ITERATION_" +:+ k' +:+ ".xml" → k = k'.
Proof. intros E. apply (inj _) in E. by apply str_app_inj_r in E. Qed.

Section methods.
Context `{X : iteration_xml}.
Implicit Types (self : IC.t) (st : os_state).

Lemma create_new_iteration_eq self k solver ev a b st :
  IC.create_new_iteration self k solver ev a b st =
    if IC.has_iteration self k st
    then (inl (ValueError ("Iteration " +:+ k +:+ " already exists.")), st)
    else match write_file st (IC._get_filename_for_iteration self k)
                 (create_iteration_xml_string k solver ev a b) with
         | Some st' => (inr (), st')
         | None => (inl IOError, st)
         end.
Proof.
  unfold IC.create_new_iteration, IC.has_iteration, mbind, M_bind, get_state.
  by destruct (bool_decide _).
Qed.

Lemma Iteration_init_eq path st :
  IC.Iteration_init path st =
    match read_file st path with
    | None => (inl IOError, st)
    | Some data =>
        match parse_iteration data with
        | Some it => (inr it, st)
        | None => (inl XMLError, st)
        end
    end.
Proof.
  unfold IC.Iteration_init, mbind, M_bind, os_read.
  destruct (read_file st path); [|done]. by destruct (parse_iteration _).
Qed.

Lemma get_eq self k st :
  IC.get self k st =
    match IC.get_iteration_dict self st !! k with
    | None =>
        (inl (LASIFNotFoundError ("Iteration '" +:+ k +:+ "' not found.")),
         st)
    | Some file => IC.Iteration_init file st
    end.
Proof.
  unfold IC.get, mbind, M_bind, get_state. by destruct (_ !! k).
Qed.

Lemma create_successive_iteration_eq self a b st :
  IC.create_successive_iteration self a b st =
    match IC.get_iteration_dict self st !! a with
    | None =>
        (inl (LASIFNotFoundError
                ("Iteration " +:+ a +:+ " does not exists.")), st)
    | Some file =>
        if IC.has_iteration self b st
        then (inl (ValueError ("Iteration " +:+ b +:+ " already exists.")), st)
        else
          match IC.Iteration_init file st with
          | (inr it, st1) =>
              match write_file st1 (IC._get_filename_for_iteration self b)
                      (serialize_iteration
                         (mkIteration b [] (other_settings it))) with
              | Some st' => (inr (), st')
              | None => (inl IOError, st1)
              end
          | (inl e, st1) => (inl e, st1)
          end
    end.
Proof.
  unfold IC.create_successive_iteration, IC.has_iteration, mbind, M_bind,
    get_state.
  destruct (_ !! a); [|done]. destruct (bool_decide _); [done|].
  by destruct (IC.Iteration_init _ st) as [[?|?] ?].
Qed.

Lemma filename_eq self d k :
  folder_shape (IC._folder self) d →
  IC._get_filename_for_iteration self k =
    IC._folder self +:+ "/" +:+ "ITERATION_" +:+ k +:+ ".xml".
Proof.
  intros Hshape. unfold IC._get_filename_for_iteration.
  rewrite long_name_eq. by rewrite (join_folder _ _ Hshape).
Qed.

(** What a successful write of the file of [k] does. *)
Lemma write_iteration_file self d k data st st' :
  folder_shape (IC._folder self) d → str_contains sep k = false →
  write_file st (IC._get_filename_for_iteration self k) data = Some st' →
  ordinary_name ("ITERATION_" +:+ k +:+ ".xml") = true
  ∧ dir_at (fs st) d = true
  ∧ is_dir (fs st) (d ++ ["ITERATION_" +:+ k +:+ ".xml"]) = false
  ∧ st' = OsState
            (<[d ++ ["ITERATION_" +:+ k +:+ ".xml"] := File data]> (fs st))
            (cwd st).
Proof.
  intros Hshape Hsep. rewrite (filename_eq _ d) by done. intros Hw.
  assert (str_contains "000" k = false) as Hnul.
  { unfold write_file in Hw.
    destruct (str_contains "000" _) eqn:E; [done|].
    rewrite !str_contains_app in E.
    do 3 (apply orb_false_elim in E as [_ E]).
    by apply orb_false_elim in E as [E _]. }
  pose proof (long_name_ordinary k Hsep Hnul) as Hord.
  rewrite (write_file_entry _ _ Hshape) in Hw by done.
  destruct (dir_at (fs st) d); [|done].
  destruct (is_dir (fs st) _); [done|]. by injection Hw as <-.
Qed.

(** The dictionary after the file of [k] was written. *)
Lemma dict_after_write self d k data st :
  folder_shape (IC._folder self) d → well_named (fs st) →
  ordinary_name ("ITERATION_" +:+ k +:+ ".xml") = true →
  dir_at (fs st) d = true →
  is_dir (fs st) (d ++ ["ITERATION_" +:+ k +:+ ".xml"]) = false →
  let st' :=
    OsState (<[d ++ ["ITERATION_" +:+ k +:+ ".xml"] := File data]> (fs st))
            (cwd st) in
  well_named (fs st')
  ∧ dir_at (fs st') d = true
  ∧ IC.get_iteration_dict self st' =
      <[k := IC._folder self +:+ "/" +:+ "ITERATION_" +:+ k +:+ ".xml"]>
        (IC.get_iteration_dict self st).
Proof.
  intros Hshape Hwf Hord Hd Hq st'.
  assert (well_named (fs st')) as Hwf'.
  { apply well_named_insert; [done|apply Hshape|done]. }
  assert (dir_at (fs st') d = true) as Hd'.
  { unfold st'. simpl. by rewrite dir_at_insert_file. }
  split; [done|]. split; [done|]. apply map_eq. intros k'.
  rewrite (dict_lookup self d Hshape st' Hwf'), Hd'. simpl.
  destruct (decide (k = k')) as [<-|Hne].
  - by rewrite !lookup_insert_eq, bool_decide_eq_true_2.
  - assert (d ++ ["ITERATION_" +:+ k +:+ ".xml"]
            ≠ d ++ ["ITERATION_" +:+ k' +:+ ".xml"]) as Hne'.
    { intros E. apply (f_equal last) in E. rewrite !last_snoc in E.
      apply (inj Some) in E. by apply long_name_inj in E. }
    rewrite !lookup_insert_ne by done.
    by rewrite (dict_lookup self d Hshape st Hwf), Hd.
Qed.
End methods.

Lemma str_endswith_inv (c : ascii) (s : string) :
  str_endswith (String c "") s = true → ∃ s', s = s' +:+ String c "".
Proof.
  unfold str_endswith. intros [_ H]%andb_true_iff.
  apply bool_decide_eq_true in H.
  exists (str_take (String.length s - String.length (String c "")) s).
  etrans.
  { symmetry.
    apply (str_take_drop (String.length s - String.length (String c ""))). }
  by rewrite H.
Qed.

Lemma basename_join (folder n : string) :
  str_startswith "/" n = false → str_contains sep n = false →
  basename (join folder n) = n.
Proof.
  intros Hn Hsep. unfold join. rewrite Hn.
  case_bool_decide as Hf; simpl.
  - subst folder. rewrite str_app_nil_l. by apply basename_absent.
  - destruct (str_endswith "/" folder) eqn:He.
    + apply str_endswith_inv in He as [s' ->].
      rewrite str_app_assoc. by apply basename_slash.
    + by apply basename_slash.
Qed.

Lemma sample_well_named : well_named (fs Sample.disk).
Proof.
  refine (bool_decide_unpack
            (map_Forall (λ p _, Forall (λ n, ordinary_name n = true) p)
                        (fs Sample.disk)) _).
  by vm_compute.
Qed.

Lemma bits_round_trip (p : positive) :
  Sample.pos_of_bits (Sample.bits_of_pos p) = p.
Proof. induction p as [p IH|p IH|]; simpl; by rewrite ?IH. Qed.

Global Instance sample_round_trip : iteration_xml_round_trip Sample.xml.
Proof.
  intros [n c s]. unfold parse_iteration, serialize_iteration. simpl.
  by rewrite bits_round_trip, decode_encode.
Qed.

Lemma has_iteration_some (self : IC.t) (k : string) (st : os_state)
    (file : string) :
  IC.get_iteration_dict self st !! k = Some file →
  IC.has_iteration self k st = true.
Proof.
  intros H. unfold IC.has_iteration. rewrite H.
  by apply bool_decide_eq_true_2.
Qed.

Lemma has_iteration_none (self : IC.t) (k : string) (st : os_state) :
  IC.get_iteration_dict self st !! k = None →
  IC.has_iteration self k st = false.
Proof.
  intros H. unfold IC.has_iteration. rewrite H.
  apply bool_decide_eq_false_2. by intros [??].
Qed.

(** Closes a goal [fails_with r k → _] when [r] is no failure of kind [k]. *)
Ltac not_this_kind :=
  let e := fresh "e" in
  let He := fresh "He" in
  let Hk := fresh "Hk" in
  intros (e & He & Hk); simpl in He; simplify_eq; done.

Section registry.
Context `{X : iteration_xml}.
Implicit Types (self : IC.t) (st : os_state).

(** C1, as amended: when the folder of the registry is an absolute
    normalised path without wildcard characters, the entries of the tree
    have ordinary names and the short name [k] has no ["/"], a call of
    [create_new_iteration] that returns leaves the registry with [k]
    enumerated under the path [<folder>/ITERATION_<k>.xml], and
    [has_iteration] true of it; it was false before. *)
Theorem create_new_iteration_registers self st st' k solver ev a b :
  wf_folder (IC._folder self) = true → well_named (fs st) →
  str_contains sep k = false →
  IC.create_new_iteration self k solver ev a b st = (inr (), st') →
  IC.get_iteration_dict self st' !! k
    = Some (IC._folder self +:+ "/ITERATION_" +:+ k +:+ ".xml")
  ∧ IC.has_iteration self k st' = true
  ∧ IC.has_iteration self k st = false.
Proof.
  intros Hshape%wf_folder_shape Hwf Hsep.
  rewrite create_new_iteration_eq.
  destruct (IC.has_iteration self k st) eqn:Hhas; [done|].
  destruct (write_file _ _ _) as [st1|] eqn:Hw; [|done].
  intros [= ->].
  destruct (write_iteration_file _ _ _ _ _ _ Hshape Hsep Hw)
    as (Hord & Hd & Hq & ->).
  destruct (dict_after_write self _ k
              (create_iteration_xml_string k solver ev a b) st
              Hshape Hwf Hord Hd Hq) as (_ & _ & Hdict).
  unfold IC.has_iteration. rewrite Hdict, lookup_insert_eq.
  split; [done|]. split; [|done]. by apply bool_decide_eq_true_2.
Qed.

(** C2: the failures of the contract are exactly [AlreadyExists] and
    [NotFound], each raised under exactly its condition:
    [create_new_iteration] raises [ValueError] if and only if the name is
    taken, and never [LASIFNotFoundError]; [create_successive_iteration]
    raises [LASIFNotFoundError] if and only if the source is absent, and
    [ValueError] if and only if the source is present and the destination
    is taken; [get] raises [LASIFNotFoundError] if and only if the name is
    absent, and never [ValueError]. *)
Theorem registry_error_taxonomy self st :
  (∀ k solver ev a b,
     (fails_with (IC.create_new_iteration self k solver ev a b st) AlreadyExists
      ↔ IC.has_iteration self k st = true)
     ∧ ¬ fails_with (IC.create_new_iteration self k solver ev a b st) NotFound)
  ∧ (∀ s d,
       (fails_with (IC.create_successive_iteration self s d st) NotFound
        ↔ IC.has_iteration self s st = false)
       ∧ (fails_with (IC.create_successive_iteration self s d st) AlreadyExists
          ↔ IC.has_iteration self s st = true
            ∧ IC.has_iteration self d st = true))
  ∧ (∀ k,
       (fails_with (IC.get self k st) NotFound
        ↔ IC.has_iteration self k st = false)
       ∧ ¬ fails_with (IC.get self k st) AlreadyExists).
Proof.
  split; [|split].
  - intros k solver ev a b. rewrite create_new_iteration_eq.
    destruct (IC.has_iteration self k st); simpl.
    + split; [split; [done|]|by not_this_kind].
      intros _. by eexists.
    + destruct (write_file _ _ _); simpl;
        (split; [split; [|done]|]); by not_this_kind.
  - intros s d. rewrite create_successive_iteration_eq.
    destruct (IC.get_iteration_dict self st !! s) as [file|] eqn:Hs.
    + rewrite (has_iteration_some _ _ _ _ Hs).
      destruct (IC.has_iteration self d st); simpl.
      * split; [split; [|done]|split; [done|]]; [by not_this_kind|].
        intros _. by eexists.
      * rewrite Iteration_init_eq.
        destruct (read_file st file) as [data|]; simpl.
        2:{ split; (split; [by not_this_kind|by try intros [_ ?]]). }
        destruct (parse_iteration data); simpl.
        2:{ split; (split; [by not_this_kind|by try intros [_ ?]]). }
        destruct (write_file _ _ _); simpl;
          split; (split; [by not_this_kind|by try intros [_ ?]]).
    + rewrite (has_iteration_none _ _ _ Hs).
      split; [split; [done|]|].
      * intros _. by eexists.
      * split; [by not_this_kind|by intros [? _]].
  - intros k. rewrite get_eq.
    destruct (IC.get_iteration_dict self st !! k) as [file|] eqn:Hs.
    + rewrite (has_iteration_some _ _ _ _ Hs). rewrite Iteration_init_eq.
      destruct (read_file st file) as [data|]; simpl.
      2:{ split; [split; [|done]|]; by not_this_kind. }
      destruct (parse_iteration data); simpl;
        (split; [split; [|done]|]); by not_this_kind.
    + rewrite (has_iteration_none _ _ _ Hs).
      split; [split; [done|]|by not_this_kind].
      intros _. by eexists.
Qed.
End registry.

Section registry_clone.
Context `{X : iteration_xml}.
Implicit Types (self : IC.t) (st : os_state).

(** C3, as amended: when the folder of the registry is an absolute
    normalised path without wildcard characters, the entries of the tree
    have ordinary names, the parser reads back what the serializer writes
    and the destination name [b] has no ["/"], a call of
    [create_successive_iteration a b] that returns leaves an iteration
    [b], enumerated under [<folder>/ITERATION_<b>.xml], whose comments are
    empty and whose other settings are those of [a]; [get a] returns the
    same iteration as before, from the same file with the same content. *)
Theorem create_successive_iteration_clones
    `{!iteration_xml_round_trip X} self st st' a b :
  wf_folder (IC._folder self) = true → well_named (fs st) →
  str_contains sep b = false →
  IC.create_successive_iteration self a b st = (inr (), st') →
  ∃ it file,
    IC.get self a st = (inr it, st)
    ∧ IC.get self b st' = (inr (mkIteration b [] (other_settings it)), st')
    ∧ IC.get_iteration_dict self st' !! b
        = Some (IC._folder self +:+ "/ITERATION_" +:+ b +:+ ".xml")
    ∧ IC.get self a st' = (inr it, st')
    ∧ IC.get_iteration_dict self st !! a = Some file
    ∧ IC.get_iteration_dict self st' !! a = Some file
    ∧ read_file st' file = read_file st file.
Proof.
  intros Hshape%wf_folder_shape Hwf Hsep.
  rewrite create_successive_iteration_eq.
  destruct (IC.get_iteration_dict self st !! a) as [file|] eqn:Ha; [|done].
  destruct (IC.has_iteration self b st) eqn:Hb; [done|].
  rewrite Iteration_init_eq.
  destruct (read_file st file) as [data|] eqn:Hread; [|done].
  destruct (parse_iteration data) as [it|] eqn:Hparse; [|done].
  destruct (write_file _ _ _) as [st1|] eqn:Hw; [|done].
  intros [= ->]. exists it, file.
  destruct (write_iteration_file _ _ _ _ _ _ Hshape Hsep Hw)
    as (Hord & Hd & Hq & ->).
  set (new := mkIteration b [] (other_settings it)) in *.
  set (st' := OsState _ _).
  destruct (dict_after_write self _ b (serialize_iteration new) st
              Hshape Hwf Hord Hd Hq) as (Hwf' & Hd' & Hdict).
  fold st' in Hwf', Hd', Hdict.
  assert (a ≠ b) as Hab.
  { intros ->. apply has_iteration_some in Ha. congruence. }
  (* the file of [a] *)
  pose proof Ha as Ha'.
  rewrite (dict_lookup self _ Hshape st Hwf) in Ha'.
  rewrite Hd in Ha'. simpl in Ha'.
  case_bool_decide as Hentry; [|done]. injection Ha' as <-.
  pose proof (well_named_entry _ _ _ Hwf Hentry) as Horda.
  assert (read_file st'
            (IC._folder self +:+ "/" +:+ "ITERATION_" +:+ a +:+ ".xml")
          = Some data) as Hread'.
  { rewrite (read_file_entry _ _ Hshape) in Hread |- * by done.
    rewrite Hd in Hread. rewrite Hd'. unfold st'. simpl.
    rewrite lookup_insert_ne; [done|].
    intros E. apply (f_equal last) in E. rewrite !last_snoc in E.
    apply (inj Some) in E. apply long_name_inj in E. congruence. }
  assert (IC.get_iteration_dict self st' !! a
          = Some (IC._folder self +:+ "/" +:+ "ITERATION_" +:+ a +:+ ".xml"))
    as Ha'.
  { rewrite Hdict, lookup_insert_ne; done. }
  split; [by rewrite get_eq, Ha, Iteration_init_eq, Hread, Hparse|].
  split.
  { rewrite get_eq, Hdict, lookup_insert_eq, Iteration_init_eq.
    rewrite (read_file_entry _ _ Hshape) by done.
    rewrite Hd'. unfold st' at 1. simpl. rewrite lookup_insert_eq.
    by rewrite parse_serialize. }
  split; [by rewrite Hdict, lookup_insert_eq|].
  split; [by rewrite get_eq, Ha', Iteration_init_eq, Hread', Hparse|].
  split; [done|]. split; [done|]. congruence.
Qed.

End registry_clone.

(** C4: [list] is in ascending order of the byte-wise lexicographic
    comparison, without repetition, has [count] elements and holds exactly
    the names [has_iteration] accepts; both [list] and [count] are
    functions of the dictionary computed from the current directory. *)
Theorem list_sorted_and_counted (self : IC.t) (st : os_state) :
  StronglySorted String.le (IC.list self st)
  ∧ NoDup (IC.list self st)
  ∧ length (IC.list self st) = IC.count self st
  ∧ (∀ k, k ∈ IC.list self st ↔ IC.has_iteration self k st = true)
  ∧ IC.list self st
      = merge_sort String.le (map_to_list (IC.get_iteration_dict self st)).*1
  ∧ IC.count self st = size (IC.get_iteration_dict self st).
Proof.
  unfold IC.list, IC.count. set (m := IC.get_iteration_dict self st).
  assert (merge_sort String.le (map_to_list m).*1 ≡ₚ (map_to_list m).*1) as Hp
    by apply merge_sort_Permutation.
  split; [apply StronglySorted_merge_sort; apply _|].
  split; [rewrite Hp; apply NoDup_fst_map_to_list|].
  split; [by rewrite Hp, length_fmap, length_map_to_list|].
  split; [|done]. intros k. rewrite Hp. unfold IC.has_iteration. fold m.
  rewrite bool_decide_eq_true. rewrite list_elem_of_fmap. split.
  - intros ([k' v] & -> & Hkv). apply elem_of_map_to_list in Hkv. by exists v.
  - intros [v Hv]. exists (k, v). split; [done|]. by apply elem_of_map_to_list.
Qed.

(** The order of [list] is the one of the bytes, not of the numbers. *)
Example list_order_of_bytes :
  merge_sort String.le ["2"; "10"; "1"; "B"; "a"] = ["1"; "10"; "2"; "B"; "a"].
Proof. by vm_compute. Qed.

(** C5, as amended: [get_long_iteration_name s] is ["ITERATION_"] followed
    by [s] for every short name [s], and when [s] has no ["/"] the key that
    [get_iteration_dict] computes from the file name written for [s] is [s]
    again, whatever the folder. *)
Theorem naming_round_trip (self : IC.t) (s : string) :
  IC.get_long_iteration_name s = "ITERATION_" +:+ s
  ∧ (str_contains sep s = false →
     IC.short_from_filename (IC._get_filename_for_iteration self s) = s).
Proof.
  split; [done|]. intros Hs.
  unfold IC.short_from_filename, IC._get_filename_for_iteration.
  rewrite long_name_eq, basename_join.
  - by apply short_of_long.
  - done.
  - rewrite !str_contains_app, Hs. done.
Qed.

(** ** Further properties of the component *)

Lemma str_contains_take (c : ascii) (n : nat) (s : string) :
  str_contains c s = false → str_contains c (str_take n s) = false.
Proof.
  revert s. induction n as [|n IH]; intros [|a s]; simpl; try done.
  intros [Ha Hs]%orb_false_elim. by rewrite Ha, IH.
Qed.

Lemma str_contains_drop (c : ascii) (n : nat) (s : string) :
  str_contains c s = false → str_contains c (str_drop n s) = false.
Proof.
  revert s. induction n as [|n IH]; intros [|a s]; simpl; try done.
  intros [Ha Hs]%orb_false_elim. by apply IH.
Qed.

Lemma str_rfind_negative (c : ascii) (s : string) :
  (str_rfind c s < 0)%Z → str_contains c s = false.
Proof.
  induction s as [|a s IH]; simpl; [done|].
  pose proof (str_rfind_ge c s).
  destruct (Z.leb_spec 0 (str_rfind c s)); [lia|].
  case_bool_decide; [lia|]. intros _. simpl. apply IH. lia.
Qed.

(** [os.path.basename] returns a string without separator. *)
Lemma basename_no_sep (p : string) : str_contains sep (basename p) = false.
Proof.
  unfold basename. induction p as [|a p IH]; [done|].
  simpl str_rfind. pose proof (str_rfind_ge sep p).
  destruct (Z.leb_spec 0 (str_rfind sep p)).
  - replace (Z.to_nat (str_rfind sep p + 1 + 1))
      with (S (Z.to_nat (str_rfind sep p + 1))) by lia.
    exact IH.
  - assert (str_contains sep p = false) as Hp by (apply str_rfind_negative; lia).
    case_bool_decide; simpl; [done|].
    by rewrite bool_decide_eq_false_2.
Qed.

Lemma short_from_filename_no_sep (_i : string) :
  str_contains sep (IC.short_from_filename _i) = false.
Proof.
  unfold IC.short_from_filename, splitext.
  apply str_contains_drop. destruct (_ && _); simpl.
  - apply str_contains_take, basename_no_sep.
  - apply basename_no_sep.
Qed.



Section folder_missing.
Context (folder : string) (d : list string) (Hshape : folder_shape folder d).


End folder_missing.


(** X1: in a registry whose folder is an absolute normalised path without
    wildcard characters, over a tree with ordinary names, the dictionary
    has the key [k] exactly when [os.listdir] of the folder has the entry
    [ITERATION_<k>.xml], and the value is then the file name that
    [_get_filename_for_iteration] gives for [k]. *)
Theorem get_iteration_dict_entries (self : IC.t) (st : os_state)
    (k v : string) :
  wf_folder (IC._folder self) = true → well_named (fs st) →
  IC.get_iteration_dict self st !! k = Some v
  ↔ (∃ names, listdir st (IC._folder self) = Some names
              ∧ "ITERATION_" +:+ k +:+ ".xml" ∈ names)
    ∧ v = IC._get_filename_for_iteration self k.
Proof.
  intros Hshape%wf_folder_shape Hwf.
  rewrite (dict_lookup self _ Hshape st Hwf).
  rewrite (listdir_folder _ _ Hshape), (filename_eq self _ k Hshape).
  destruct (dir_at (fs st) _) eqn:Hd; simpl.
  - case_bool_decide as He.
    + split.
      * intros [= <-]. split; [|done]. eexists. split; [done|].
        by apply elem_of_children.
      * by intros [_ ->].
    + split; [done|]. intros [(names & [= <-] & Hin) _].
      by apply elem_of_children in Hin.
  - split; [done|]. by intros [(names & ? & _) _].
Qed.


(** X3: no key of the dictionary has a separator, in any state and for any
    folder; so a name with ["/"] is never found: [has_iteration] is false
    of it and [get] raises [LASIFNotFoundError], whatever was created under
    that name. *)
Theorem separator_names_never_found `{X : iteration_xml} (self : IC.t)
    (st : os_state) (k : string) :
  str_contains sep k = true →
  IC.get_iteration_dict self st !! k = None
  ∧ IC.has_iteration self k st = false
  ∧ (k ∉ IC.list self st)
  ∧ IC.get self k st
    = (inl (LASIFNotFoundError ("Iteration '" +:+ k +:+ "' not found.")), st).
Proof.
  intros Hk.
  assert (IC.get_iteration_dict self st !! k = None) as Hnone.
  { destruct (IC.get_iteration_dict self st !! k) as [v|] eqn:Hv; [|done].
    unfold IC.get_iteration_dict in Hv.
    apply dict_of_files_sound in Hv as [[_ Hkey]|Hv]; [|done].
    pose proof (short_from_filename_no_sep v) as Hsep. congruence. }
  split; [done|]. split; [by apply has_iteration_none|].
  split; [|by rewrite get_eq, Hnone].
  unfold IC.list. rewrite merge_sort_Permutation.
  intros ([k' v] & -> & Hin%elem_of_map_to_list)%list_elem_of_fmap.
  simpl in Hnone. congruence.
Qed.

(** X4: iterations with distinct names without ["/"] do not share a file:
    in a registry whose folder is an absolute normalised path, writing the
    file of [k] leaves what is read from the file of [k'] as it was.  (With
    a ["/"] in a name two names can lead to one file, as
    [create_successive_iteration_overwrites_source] shows.) *)
Theorem distinct_names_distinct_files (self : IC.t) (st st' : os_state)
    (k k' data : string) :
  wf_folder (IC._folder self) = true →
  str_contains sep k = false → str_contains sep k' = false → k ≠ k' →
  write_file st (IC._get_filename_for_iteration self k) data = Some st' →
  read_file st' (IC._get_filename_for_iteration self k')
  = read_file st (IC._get_filename_for_iteration self k').
Proof.
  intros Hshape%wf_folder_shape Hk Hk' Hne Hw.
  destruct (write_iteration_file self _ k data st st' Hshape Hk Hw)
    as (Hord & Hd & Hq & ->).
  rewrite (filename_eq self _ k' Hshape).
  destruct (str_contains "000" k') eqn:Hnul.
  - unfold read_file. rewrite !str_contains_app, Hnul.
    by rewrite !orb_true_r.
  - pose proof (long_name_ordinary k' Hk' Hnul) as Hord'.
    rewrite !(read_file_entry _ _ Hshape) by done. simpl.
    rewrite dir_at_insert_file by done.
    rewrite lookup_insert_ne; [done|].
    intros E. apply (f_equal last) in E. rewrite !last_snoc in E.
    apply (inj Some) in E. by apply long_name_inj in E.
Qed.

Section further.
Context `{X : iteration_xml}.
Implicit Types (self : IC.t) (st : os_state).





(** X8: the tests of the methods come before any file operation, and
    reading changes nothing.  [create_new_iteration] for a name of the
    dictionary raises [ValueError] with its message;
    [create_successive_iteration] raises [LASIFNotFoundError] with its
    message for a source that is not in the dictionary, whatever the
    destination, and [ValueError] for a destination of the dictionary; a
    source that cannot be parsed ends the call before the write.  In each
    case the state is the one before the call, and [get] never changes
    it. *)
Theorem failed_tests_leave_state self st :
  (∀ k solver ev a b,
     IC.has_iteration self k st = true →
     IC.create_new_iteration self k solver ev a b st
     = (inl (ValueError ("Iteration " +:+ k +:+ " already exists.")), st))
  ∧ (∀ s d,
       IC.has_iteration self s st = false →
       IC.create_successive_iteration self s d st
       = (inl (LASIFNotFoundError
                 ("Iteration " +:+ s +:+ " does not exists.")), st))
  ∧ (∀ s d,
       IC.has_iteration self s st = true →
       IC.has_iteration self d st = true →
       IC.create_successive_iteration self s d st
       = (inl (ValueError ("Iteration " +:+ d +:+ " already exists.")), st))
  ∧ (∀ s d,
       (IC.create_successive_iteration self s d st).1 = inl XMLError →
       (IC.create_successive_iteration self s d st).2 = st)
  ∧ (∀ k, (IC.get self k st).2 = st).
Proof.
  repeat split.
  - intros k solver ev a b Hk. by rewrite create_new_iteration_eq, Hk.
  - intros s d Hs. rewrite create_successive_iteration_eq.
    destruct (_ !! s) as [file|] eqn:E; [|done].
    apply has_iteration_some in E. congruence.
  - intros s d Hs Hd. rewrite create_successive_iteration_eq, Hd.
    destruct (_ !! s) as [file|] eqn:E; [done|].
    apply has_iteration_none in E. congruence.
  - intros s d. rewrite create_successive_iteration_eq.
    destruct (_ !! s) as [file|]; [|done].
    destruct (IC.has_iteration self d st); [done|].
    rewrite Iteration_init_eq.
    destruct (read_file st file) as [data|]; [|done].
    destruct (parse_iteration data); [|done].
    by destruct (write_file _ _ _).
  - intros k. rewrite get_eq. destruct (_ !! k) as [file|]; [|done].
    rewrite Iteration_init_eq.
    destruct (read_file st file) as [data|]; [|done].
    by destruct (parse_iteration data).
Qed.



End further.

Section progress.
Context `{X : iteration_xml}.
Implicit Types (self : IC.t) (st : os_state).





End progress.

(** ** Examples on the sample project *)

#[local] Existing Instance Sample.xml.

Lemma pair_of_fst {A B} (r : A * B) (a : A) : r.1 = a → r = (a, r.2).
Proof. intros <-. by destruct r. Qed.

(** The theorem on the sample project, for the new iteration ["3"]. *)
Lemma create_new_iteration_registers_witness :
  let st' := (IC.create_new_iteration Sample.iterations "3" "ses3d_4_1" ∅
                (10 : nat) (20 : nat) Sample.disk).2 in
  IC.get_iteration_dict Sample.iterations st' !! "3"
    = Some (IC._folder Sample.iterations +:+ "/ITERATION_" +:+ "3" +:+ ".xml")
  ∧ IC.has_iteration Sample.iterations "3" st' = true
  ∧ IC.has_iteration Sample.iterations "3" Sample.disk = false.
Proof.
  apply (create_new_iteration_registers (X:=Sample.xml) Sample.iterations
           Sample.disk _ "3" "ses3d_4_1" ∅ (10 : nat) (20 : nat)).
  - by vm_compute.
  - exact sample_well_named.
  - by vm_compute.
  - apply pair_of_fst. by vm_compute.
Defined.

(** C1 fails as stated: in the sample project, where the iterations folder
    has a subdirectory [ITERATION_drafts], the name ["drafts/2"] is absent,
    [create_new_iteration] returns for it (it writes
    [ITERATION_drafts/2.xml]), and the name is still not enumerated. *)
Lemma create_new_iteration_slash_not_enumerated :
  let r := IC.create_new_iteration Sample.iterations "drafts/2" "ses3d_4_1" ∅
             (10 : nat) (20 : nat) Sample.disk in
  IC.has_iteration Sample.iterations "drafts/2" Sample.disk = false
  ∧ r.1 = inr ()
  ∧ IC.get_iteration_dict Sample.iterations r.2 !! "drafts/2" = None
  ∧ IC.has_iteration Sample.iterations "drafts/2" r.2 = false.
Proof. by vm_compute. Qed.

(** Creating the same iteration a second time raises [ValueError]. *)
Example create_new_iteration_twice :
  let r := IC.create_new_iteration Sample.iterations "3" "ses3d_4_1" ∅
             (10 : nat) (20 : nat) Sample.disk in
  r.1 = inr ()
  ∧ (IC.create_new_iteration Sample.iterations "3" "ses3d_4_1" ∅
       (10 : nat) (20 : nat) r.2).1
    = inl (ValueError "Iteration 3 already exists.").
Proof. by vm_compute. Qed.

(** The theorem on the sample project, for the iteration ["2"] made from
    ["1"], whose comments are [Some] and [random comments]. *)
Lemma create_successive_iteration_clones_witness :
  let st := Sample.disk in
  let st' := (IC.create_successive_iteration Sample.iterations "1" "2" st).2 in
  ∃ it file,
    IC.get Sample.iterations "1" st = (inr it, st)
    ∧ IC.get Sample.iterations "2" st'
        = (inr (mkIteration "2" [] (other_settings it)), st')
    ∧ IC.get_iteration_dict Sample.iterations st' !! "2"
        = Some (IC._folder Sample.iterations
                +:+ "/ITERATION_" +:+ "2" +:+ ".xml")
    ∧ IC.get Sample.iterations "1" st' = (inr it, st')
    ∧ IC.get_iteration_dict Sample.iterations st !! "1" = Some file
    ∧ IC.get_iteration_dict Sample.iterations st' !! "1" = Some file
    ∧ read_file st' file = read_file st file.
Proof.
  apply (create_successive_iteration_clones (X:=Sample.xml) Sample.iterations
           Sample.disk _ "1" "2").
  - by vm_compute.
  - exact sample_well_named.
  - by vm_compute.
  - apply pair_of_fst. by vm_compute.
Defined.

(** C3 fails as stated: in the sample project the iteration ["1"] exists
    and ["drafts/2"] does not, [create_successive_iteration] returns for
    them, and [get "drafts/2"] then raises [LASIFNotFoundError]: there is no
    iteration under that key whose comments could be empty. *)
Lemma create_successive_iteration_slash_not_found :
  let r := IC.create_successive_iteration Sample.iterations "1" "drafts/2"
             Sample.disk in
  IC.has_iteration Sample.iterations "1" Sample.disk = true
  ∧ IC.has_iteration Sample.iterations "drafts/2" Sample.disk = false
  ∧ r.1 = inr ()
  ∧ (IC.get Sample.iterations "drafts/2" r.2).1
      = inl (LASIFNotFoundError "Iteration 'drafts/2' not found.")
  ∧ IC.get_iteration_dict Sample.iterations r.2 !! "drafts/2" = None.
Proof. by vm_compute. Qed.

(** A destination name with ["/"] can even lead back to the file of the
    source: [ITERATION_drafts/../ITERATION_1.xml] is the file of ["1"],
    which is overwritten, so that [get "1"] returns another iteration than
    before. *)
Example create_successive_iteration_overwrites_source :
  let r := IC.create_successive_iteration Sample.iterations "1"
             "drafts/../ITERATION_1" Sample.disk in
  IC.has_iteration Sample.iterations "drafts/../ITERATION_1" Sample.disk
    = false
  ∧ r.1 = inr ()
  ∧ (IC.get Sample.iterations "1" Sample.disk).1 = inr Sample.iteration_1
  ∧ (IC.get Sample.iterations "1" r.2).1
    = inr (mkIteration "drafts/../ITERATION_1" [] "ses3d_4_1").
Proof. by vm_compute. Qed.

(** The theorem on the sample project, for the short name ["3"]. *)
Lemma naming_round_trip_witness :
  IC.get_long_iteration_name "3" = "ITERATION_" +:+ "3"
  ∧ IC.short_from_filename
      (IC._get_filename_for_iteration Sample.iterations "3") = "3".
Proof.
  destruct (naming_round_trip Sample.iterations "3") as [Hlong Hshort].
  split; [exact Hlong|]. apply Hshort. by vm_compute.
Defined.

(** C5 fails as stated: the file name written for the short name
    ["drafts/2"] is [/project/ITERATIONS/ITERATION_drafts/2.xml], and the
    key derived from it is the empty string, not ["drafts/2"]. *)
Lemma naming_slash_key_differs :
  IC._get_filename_for_iteration Sample.iterations "drafts/2"
    = "/project/ITERATIONS/ITERATION_drafts/2.xml"
  ∧ IC.short_from_filename
      (IC._get_filename_for_iteration Sample.iterations "drafts/2") = "".
Proof. by vm_compute. Qed.


(** ** The further properties on the sample project *)

Lemma get_iteration_dict_entries_witness :
  IC.get_iteration_dict Sample.iterations Sample.disk !! "1"
    = Some "/project/ITERATIONS/ITERATION_1.xml"
  ↔ (∃ names,
       listdir Sample.disk (IC._folder Sample.iterations) = Some names
       ∧ "ITERATION_" +:+ "1" +:+ ".xml" ∈ names)
    ∧ "/project/ITERATIONS/ITERATION_1.xml"
      = IC._get_filename_for_iteration Sample.iterations "1".
Proof.
  apply (get_iteration_dict_entries Sample.iterations Sample.disk "1"
           "/project/ITERATIONS/ITERATION_1.xml").
  - by vm_compute.
  - exact sample_well_named.
Defined.


Lemma separator_names_never_found_witness :
  IC.get_iteration_dict Sample.iterations Sample.disk !! "drafts/2" = None
  ∧ IC.has_iteration Sample.iterations "drafts/2" Sample.disk = false
  ∧ ("drafts/2" ∉ IC.list Sample.iterations Sample.disk)
  ∧ IC.get Sample.iterations "drafts/2" Sample.disk
    = (inl (LASIFNotFoundError
              ("Iteration '" +:+ "drafts/2" +:+ "' not found.")),
       Sample.disk).
Proof.
  apply (separator_names_never_found (X:=Sample.xml) Sample.iterations
           Sample.disk "drafts/2").
  by vm_compute.
Defined.

Lemma distinct_names_distinct_files_witness :
  let self := Sample.iterations in
  let st' :=
    default Sample.disk
      (write_file Sample.disk (IC._get_filename_for_iteration self "3")
         "<iteration/>") in
  read_file st' (IC._get_filename_for_iteration self "1")
  = read_file Sample.disk (IC._get_filename_for_iteration self "1").
Proof.
  apply (distinct_names_distinct_files Sample.iterations Sample.disk _
           "3" "1" "<iteration/>").
  - by vm_compute.
  - by vm_compute.
  - by vm_compute.
  - done.
  - by vm_compute.
Defined.






(** A directory and a file that is no XML, both named like iterations, are
    enumerated; [get] ends with the error of [open] for the first and with
    the error of the parser for the second. *)
Example get_of_directory_and_of_malformed_file :
  let st :=
    OsState (<[["project"; "ITERATIONS"; "ITERATION_7.xml"] := Dir]>
               (<[["project"; "ITERATIONS"; "ITERATION_8.xml"] := File "<>"]>
                  (fs Sample.disk))) "/" in
  IC.list Sample.iterations st = ["1"; "7"; "8"]
  ∧ IC.count Sample.iterations st = 3
  ∧ (IC.get Sample.iterations "7" st).1 = inl IOError
  ∧ (IC.get Sample.iterations "8" st).1 = inl XMLError.
Proof. by vm_compute. Qed.




(** ** The command resolver *)

Lemma NoDup_all_equal {A} (l : list A) (a : A) :
  NoDup l → a ∈ l → (∀ x, x ∈ l → x = a) → l = [a].
Proof.
  intros Hnd Ha Hall. destruct l as [|x l]; [by apply elem_of_nil in Ha|].
  assert (x = a) as -> by (apply Hall; left).
  destruct l as [|y l]; [done|].
  assert (y = a) as -> by (apply Hall; right; left).
  apply NoDup_cons in Hnd as [Hnd _]. exfalso. apply Hnd. left.
Qed.

Lemma filter_none {A} (P : A → Prop) `{∀ x, Decision (P x)} (l : list A) :
  (∀ x, x ∈ l → ¬ P x) → filter P l = [].
Proof.
  induction l as [|x l IH]; intros Hl; [done|].
  rewrite filter_cons_False by (apply Hl; left).
  apply IH. intros y Hy. apply Hl. by right.
Qed.

Section resolver.
Context {handler : Type}.
Context (similarity : string → string → Z) (threshold tie_band : Z).
Implicit Types (table : gmap string handler) (token : string).

Lemma resolve_exact table token name h :
  table !! name = Some h →
  map_Forall (λ n _, str_lower n = str_lower name → n = name) table →
  str_lower token = str_lower name →
  Resolver.resolve similarity threshold tie_band table token
  = Resolver.Resolved h.
Proof.
  intros Hname Huniq Htok. unfold Resolver.resolve.
  assert (Resolver.exact_matches table token = [(name, h)]) as ->; [|done].
  unfold Resolver.exact_matches. apply NoDup_all_equal.
  - apply NoDup_filter, NoDup_map_to_list.
  - apply list_elem_of_filter. split.
    + by simpl.
    + by apply elem_of_map_to_list.
  - intros [n x] [Hn Hx]%list_elem_of_filter. simpl in Hn.
    apply elem_of_map_to_list in Hx.
    assert (n = name) as -> by (apply (Huniq n x Hx); congruence).
    congruence.
Qed.

(** C6: resolution does not distinguish upper and lower case.  When [name]
    is a name of the table and the only one with its lower case form (the
    condition of step 1: exactly one name matches), every token with that
    lower case form resolves to the handler of [name], and the entry point
    invokes that handler exactly once.  For [name] = ["info"] the tokens
    ["info"], ["INFO"] and ["InFo"] are such tokens.  The other names of
    the table may be in any case. *)
Theorem resolve_case_insensitive table name h token :
  table !! name = Some h →
  map_Forall (λ n _, str_lower n = str_lower name → n = name) table →
  str_lower token = str_lower name →
  Resolver.resolve similarity threshold tie_band table token
  = Resolver.Resolved h
  ∧ Resolver.dispatch
      (Resolver.resolve similarity threshold tie_band table token) = [h].
Proof.
  intros Hname Huniq Htok.
  by rewrite (resolve_exact table token name h).
Qed.

(** C8: a token that no canonical name matches is answered by [Unknown],
    a value of the resolver; when no name of the table reaches the
    threshold, the list of candidates is empty and the message is the
    single sentence that the token is not a command. *)
Theorem resolve_unknown table token :
  map_Forall (λ name _, str_lower name ≠ str_lower token) table →
  ∃ candidates,
    Resolver.resolve similarity threshold tie_band table token
    = Resolver.Unknown candidates
    ∧ Resolver.dispatch
        (Resolver.resolve similarity threshold tie_band table token) = []
    ∧ (map_Forall (λ name _, (similarity token name < threshold)%Z) table →
       candidates = []
       ∧ Resolver.render_unknown token candidates
         = "lasif: '" +:+ token
           +:+ "' is not a LASIF command. See 'lasif --help'."
           +:+ String "010" "").
Proof.
  intros Hno.
  exists (Resolver.suggestions similarity threshold tie_band table token).
  assert (Resolver.exact_matches table token = []) as Hex.
  { unfold Resolver.exact_matches.
    apply filter_none.
    intros [n x] Hx%elem_of_map_to_list. simpl. by apply (Hno n x). }
  unfold Resolver.resolve. rewrite Hex. split; [done|]. split; [done|].
  intros Hlow.
  assert (Resolver.suggestions similarity threshold tie_band table token = [])
    as ->.
  { unfold Resolver.suggestions.
    assert (filter (λ n, (threshold ≤ similarity token n)%Z)
                   (map_to_list table).*1 = []) as ->; [|done].
    apply filter_none.
    intros n ([n' x] & -> & Hx%elem_of_map_to_list)%list_elem_of_fmap.
    simpl. apply Z.lt_nge. by apply (Hlow n' x). }
  split; [done|]. unfold Resolver.render_unknown.
  by rewrite !str_app_nil_r.
Qed.
End resolver.

(** ** The status report *)

(** C9: for one event with 4 stations, none with processed data, 2 with
    synthetics and no picked windows the report is the header for one
    event, the event, the percentage [0.00], the 4 stations that lack
    processed data and the 2 that lack synthetics, in this order; when all
    the stations of an event have processed data, the line on processed
    data is left out of its block and the other lines stay. *)
Theorem status_report_lines (name event : string) :
  StatusAggregator.report name [event] (λ _, mkEventStatus 0 2 4 0%Q)
    = [StatusAggregator.header name 1;
       event;
       "0.00 % of the events stations have picked windows";
       "Lacks processed data for 4 stations";
       "Lacks synthetic data for 2 stations"]
  ∧ StatusAggregator.report name [event] (λ _, mkEventStatus 4 2 4 0%Q)
    = [StatusAggregator.header name 1;
       event;
       "0.00 % of the events stations have picked windows";
       "Lacks synthetic data for 2 stations"]
  ∧ StatusAggregator.header "1" 1 = "Iteration 1 is defined for 1 events:"
  ∧ ∀ total synthetics fraction,
      StatusAggregator.event_block event
        (mkEventStatus total synthetics total fraction)
      = [event;
         StatusAggregator.format_percent fraction
         +:+ " % of the events stations have picked windows"]
        ++ StatusAggregator.lacks "synthetic" total synthetics.
Proof.
  split; [by vm_compute|]. split; [by vm_compute|]. split; [by vm_compute|].
  intros total synthetics fraction. unfold StatusAggregator.event_block.
  simpl. unfold StatusAggregator.lacks at 1. rewrite Nat.sub_diag.
  by rewrite bool_decide_eq_false_2 by lia.
Qed.

Example format_percent_examples :
  StatusAggregator.format_percent (1 # 3) = "33.33"
  ∧ StatusAggregator.format_percent (1 # 8) = "12.50"
  ∧ StatusAggregator.format_percent 1 = "100.00"
  ∧ StatusAggregator.format_percent (1 # 16000) = "0.01"
  ∧ StatusAggregator.format_percent (1 # 80000) = "0.00".
Proof. by vm_compute. Qed.

Lemma sample_info_unique :
  map_Forall (λ n _, str_lower n = str_lower "info" → n = "info")
             SampleCli.commands.
Proof.
  refine (bool_decide_unpack
            (map_Forall (λ n _, str_lower n = str_lower "info" → n = "info")
                        SampleCli.commands) _).
  by vm_compute.
Qed.

(** The theorem for the three tokens of [test_command_tolerance], on a
    table whose names are not all in lower case. *)
Lemma resolve_case_insensitive_witness :
  Forall
    (λ token,
       Resolver.resolve SampleCli.common_prefix 1 0 SampleCli.commands token
         = Resolver.Resolved 0
       ∧ Resolver.dispatch
           (Resolver.resolve SampleCli.common_prefix 1 0 SampleCli.commands
              token) = [0])
    ["info"; "INFO"; "InFo"].
Proof.
  apply Forall_cons_2;
    [|apply Forall_cons_2; [|apply Forall_cons_2; [|apply Forall_nil_2]]];
    (apply (resolve_case_insensitive SampleCli.common_prefix 1 0
              SampleCli.commands "info" 0);
     [by vm_compute | exact sample_info_unique | by vm_compute]).
Defined.

(** Tokens in any case resolve to a name that is not in lower case. *)
Example resolve_mixed_case_name :
  Forall
    (λ token,
       Resolver.resolve SampleCli.common_prefix 1 0 SampleCli.commands token
         = Resolver.Resolved 5)
    ["plot_Q_model"; "plot_q_model"; "PLOT_Q_MODEL"].
Proof. repeat constructor. Qed.

(** The theorem on the sample table, for the token of
    [test_unknown_command]. *)
Lemma resolve_unknown_witness :
  ∃ candidates,
    Resolver.resolve SampleCli.common_prefix 1 0 SampleCli.table
      "asdflkjaskldfj" = Resolver.Unknown candidates
    ∧ Resolver.dispatch
        (Resolver.resolve SampleCli.common_prefix 1 0 SampleCli.table
           "asdflkjaskldfj") = []
    ∧ (map_Forall
         (λ name _, (SampleCli.common_prefix "asdflkjaskldfj" name < 1)%Z)
         SampleCli.table →
       candidates = []
       ∧ Resolver.render_unknown "asdflkjaskldfj" candidates
         = "lasif: '" +:+ "asdflkjaskldfj"
           +:+ "' is not a LASIF command. See 'lasif --help'."
           +:+ String "010" "").
Proof.
  apply (resolve_unknown SampleCli.common_prefix 1 0 SampleCli.table
           "asdflkjaskldfj").
  refine (bool_decide_unpack
            (map_Forall (λ name _, str_lower name ≠ str_lower "asdflkjaskldfj")
                        SampleCli.table) _).
  by vm_compute.
Defined.

Example resolve_unknown_sample :
  Resolver.resolve SampleCli.common_prefix 1 0 SampleCli.table "asdflkjaskldfj"
    = Resolver.Unknown [].
Proof. by vm_compute. Qed.
